(** * The real-time channel manager of the dashboard (webui/src/utils/api.ts)

    A shallow embedding of class [WebSocketManager]: its fields, its methods
    and the four handlers it installs on every transport it creates, run on a
    small model of the browser (WebSocket objects with a ready state, pending
    [setTimeout] callbacks, a console).

    The methods are computations in a state-and-exception monad over the
    state of the page; what they do to the outside (sockets created, texts
    sent, timeouts requested, console lines, callbacks called) is recorded in
    a trace with the time of each entry. The browser is an event loop: calls
    of the public methods, socket events and due timeouts are the events of a
    run. Time is logical: a timeout runs exactly when it is due.

    The arrays of listeners are objects of a heap: [push] and [splice] change
    them in place, and [forEach] reads them while it runs. A callback is a
    function of the page: while it runs it may call the public methods of
    the manager, and it returns or throws.

    The last part covers what the pages do with what arrives (pages/Logs.tsx,
    pages/System.tsx, pages/Tasks.tsx). *)

From Stdlib Require Import Strings.Ascii.
From stdpp Require Import base numbers strings list gmap pretty.

Set Warnings "-register-all".

Open Scope Z_scope.

(** ** JavaScript values *)

(** What [JSON.parse] can return. Numbers are modelled by integers (a double
    that is not integral is truthy like every non-zero integer); an object is
    the list of its own properties in the order [JSON.stringify] visits
    them. *)
Inductive json : Type :=
| JNull
| JBool (b : bool)
| JNumber (n : Z)
| JString (s : string)
| JArray (items : list json)
| JObject (fields : list (string * json)).

(** Thrown values. *)
Inductive error : Type :=
| SyntaxError (input : string)
| TypeError (what : string)
| Thrown (tag : nat).

(** ToBoolean on a value of [json]: [null], [false], [0] and the empty
    string are falsy, every array and object is truthy. *)
Definition truthy (v : json) : bool :=
  match v with
  | JNull => false
  | JBool b => b
  | JNumber n => negb (n =? 0)
  | JString s => negb (String.eqb s EmptyString)
  | JArray _ | JObject _ => true
  end.

Fixpoint assoc (k : string) (fields : list (string * json)) : option json :=
  match fields with
  | [] => None
  | (k', v) :: rest => if String.eqb k k' then Some v else assoc k rest
  end.

(** [v.k] for [k] one of the names the manager reads ([type], [data]):
    [None] is [undefined]; reading a property of [null] throws. *)
Definition get_prop (v : json) (k : string) : error + option json :=
  match v with
  | JNull => inl (TypeError k)
  | JObject fields => inr (assoc k fields)
  | _ => inr None
  end.

(** [a || b] where [a] may be [undefined]. *)
Definition or_else (a : option json) (b : json) : json :=
  match a with
  | Some v => if truthy v then v else b
  | None => b
  end.

(** *** JSON.stringify *)

Definition dquote : string := String "034"%char EmptyString.
Definition backslash : string := String "092"%char EmptyString.

Definition hex_digit (n : N) : string :=
  String (match n with
          | 0 => "0" | 1 => "1" | 2 => "2" | 3 => "3" | 4 => "4" | 5 => "5"
          | 6 => "6" | 7 => "7" | 8 => "8" | 9 => "9" | 10 => "a" | 11 => "b"
          | 12 => "c" | 13 => "d" | 14 => "e" | _ => "f"
          end)%N%char EmptyString.

Definition escape_char (c : ascii) : string :=
  let n := N_of_ascii c in
  if (n =? 34)%N then backslash +:+ dquote
  else if (n =? 92)%N then backslash +:+ backslash
  else if (n =? 8)%N then backslash +:+ "b"
  else if (n =? 12)%N then backslash +:+ "f"
  else if (n =? 10)%N then backslash +:+ "n"
  else if (n =? 13)%N then backslash +:+ "r"
  else if (n =? 9)%N then backslash +:+ "t"
  else if (n <? 32)%N then
    backslash +:+ "u00" +:+ hex_digit (n / 16) +:+ hex_digit (n mod 16)
  else String c EmptyString.

Fixpoint escape (s : string) : string :=
  match s with
  | EmptyString => EmptyString
  | String c rest => escape_char c +:+ escape rest
  end.

Definition quote (s : string) : string := dquote +:+ escape s +:+ dquote.

Fixpoint join (sep : string) (parts : list string) : string :=
  match parts with
  | [] => EmptyString
  | [p] => p
  | p :: rest => p +:+ sep +:+ join sep rest
  end.

Fixpoint JSON_stringify (v : json) : string :=
  match v with
  | JNull => "null"
  | JBool true => "true"
  | JBool false => "false"
  | JNumber n => pretty n
  | JString s => quote s
  | JArray items => "[" +:+ join "," (map JSON_stringify items) +:+ "]"
  | JObject fields =>
      "{" +:+ join "," (map (λ kv, quote kv.1 +:+ ":" +:+ JSON_stringify kv.2)
                            fields) +:+ "}"
  end.

(** ** The browser the manager runs in *)

Definition callback : Type := nat.   (* a function reference, compared by identity *)
Definition wsref : Type := nat.      (* a WebSocket object, by creation index *)
Abbreviation aref := nat (only parsing). (* an array object, by creation index *)

Inductive readyState : Type := CONNECTING | OPEN | CLOSING | CLOSED.

Global Instance readyState_eq_dec : EqDecision readyState.
Proof. solve_decision. Defined.

(** The closures handed to [setTimeout]. *)
Inductive task : Type :=
| Reconnect                 (* () => { this.connect(); } *)
| Heartbeat (w : wsref).    (* heartbeat, closed over ws *)

Global Instance task_eq_dec : EqDecision task.
Proof. solve_decision. Defined.

Inductive level : Type := Log | Warn | Error.

Inductive console_arg : Type :=
| NoArg
| ArgValue (v : json)
| ArgError (e : error).

Inductive effect : Type :=
| NewWebSocket (w : wsref) (url : string)
| WsSend (w : wsref) (text : string)
| WsClose (w : wsref)
| SetTimeout (t : task) (delay : Z)
| Console (l : level) (msg : string) (arg : console_arg)
| Call (listener : callback) (payload : json).

(** [window.location]. *)
Record Location : Type := { protocol : string; host : string }.

(** The socket.io handle of field [socket]; only [connected] is read. *)
Record Socket : Type := { connected : bool }.

(** The fields of [WebSocketManager]; [ws] is the one stored through
    [(this as any).ws]. The map [listeners] holds, for each topic, a
    reference to the array object of its callbacks: the arrays themselves
    live in the page's heap ([arrays] below), where [push] and [splice]
    change them in place. *)
Record WebSocketManager : Type := {
  socket : option Socket;
  reconnectAttempts : Z;
  listeners : gmap string aref;
  ws : option wsref
}.

(** [maxReconnectAttempts] and [reconnectDelay] are initialised and never
    assigned. *)
Definition maxReconnectAttempts : Z := 5.
Definition reconnectDelay : Z := 1000.

Record world : Type := {
  location : Location;
  manager : WebSocketManager;
  arrays : list (list callback); (* the listener arrays created so far *)
  sockets : list readyState;     (* the WebSocket objects created so far *)
  timers : list (Z * task);      (* pending timeouts with the time they are due *)
  now : Z;
  trace : list (Z * effect)      (* what happened and when, oldest first *)
}.

Definition set_manager (m : WebSocketManager) (σ : world) : world :=
  {| location := location σ; manager := m; arrays := arrays σ;
     sockets := sockets σ; timers := timers σ; now := now σ; trace := trace σ |}.
Definition set_arrays (a : list (list callback)) (σ : world) : world :=
  {| location := location σ; manager := manager σ; arrays := a;
     sockets := sockets σ; timers := timers σ; now := now σ; trace := trace σ |}.
Definition set_sockets (s : list readyState) (σ : world) : world :=
  {| location := location σ; manager := manager σ; arrays := arrays σ;
     sockets := s; timers := timers σ; now := now σ; trace := trace σ |}.
Definition set_timers (t : list (Z * task)) (σ : world) : world :=
  {| location := location σ; manager := manager σ; arrays := arrays σ;
     sockets := sockets σ; timers := t; now := now σ; trace := trace σ |}.
Definition set_now (n : Z) (σ : world) : world :=
  {| location := location σ; manager := manager σ; arrays := arrays σ;
     sockets := sockets σ; timers := timers σ; now := n; trace := trace σ |}.
Definition set_trace (t : list (Z * effect)) (σ : world) : world :=
  {| location := location σ; manager := manager σ; arrays := arrays σ;
     sockets := sockets σ; timers := timers σ; now := now σ; trace := t |}.

Definition with_reconnectAttempts (n : Z) (m : WebSocketManager) : WebSocketManager :=
  {| socket := socket m; reconnectAttempts := n;
     listeners := listeners m; ws := ws m |}.
Definition with_listeners (l : gmap string aref) (m : WebSocketManager)
  : WebSocketManager :=
  {| socket := socket m; reconnectAttempts := reconnectAttempts m;
     listeners := l; ws := ws m |}.
Definition with_ws (w : option wsref) (m : WebSocketManager) : WebSocketManager :=
  {| socket := socket m; reconnectAttempts := reconnectAttempts m;
     listeners := listeners m; ws := w |}.

(** ** Computations: state, and exceptions *)

Inductive result (A : Type) : Type :=
| Ok (a : A)
| Raise (e : error).
Arguments Ok {A} a.
Arguments Raise {A} e.

Definition M (A : Type) : Type := world → result A * world.

Definition ret {A} (a : A) : M A := λ σ, (Ok a, σ).
Definition bind {A B} (m : M A) (k : A → M B) : M B :=
  λ σ, match m σ with
       | (Ok a, σ') => k a σ'
       | (Raise e, σ') => (Raise e, σ')
       end.
Definition throw {A} (e : error) : M A := λ σ, (Raise e, σ).
Definition try_catch {A} (body : M A) (handler : error → M A) : M A :=
  λ σ, match body σ with
       | (Ok a, σ') => (Ok a, σ')
       | (Raise e, σ') => handler e σ'
       end.
Definition gets {A} (f : world → A) : M A := λ σ, (Ok (f σ), σ).
Definition modify (f : world → world) : M unit := λ σ, (Ok tt, f σ).
Definition lift {A} (r : error + A) : M A :=
  match r with inl e => throw e | inr a => ret a end.

Notation "x <- m ;; k" := (bind m (λ x, k))
  (at level 62, m at next level, right associativity).

(** [array.forEach(f)] on the array object [a]: the length is read once,
    before the first call; every index below it is visited in turn, the
    element read from the array as it is at that moment; an index the array
    no longer has is skipped. So what [f] does to the array while the loop
    runs shows in the rest of the loop. *)
Fixpoint forEach_from (a : aref) (k n : nat) (f : callback → M unit) : M unit :=
  match n with
  | O => ret tt
  | S n' =>
      x <- gets (λ σ, arrays σ !! a ≫= λ l, l !! k) ;;
      _ <- match x with
           | Some v => f v
           | None => ret tt
           end ;;
      forEach_from a (S k) n' f
  end.

Definition forEach (a : aref) (f : callback → M unit) : M unit :=
  len <- gets (λ σ, length (default [] (arrays σ !! a))) ;;
  forEach_from a 0 len f.

(** [[]]: a new, empty array object. *)
Definition new_Array : M aref :=
  a <- gets (λ σ, length (arrays σ)) ;;
  _ <- modify (λ σ, set_arrays (arrays σ ++ [[]]) σ) ;;
  ret a.

(** [array.push(cb)]. *)
Definition push (a : aref) (cb : callback) : M unit :=
  modify (λ σ, set_arrays (<[a := default [] (arrays σ !! a) ++ [cb]]> (arrays σ)) σ).

Definition emit (e : effect) : M unit :=
  modify (λ σ, set_trace (trace σ ++ [(now σ, e)]) σ).

Definition console_log (msg : string) (arg : console_arg) : M unit :=
  emit (Console Log msg arg).
Definition console_warn (msg : string) : M unit := emit (Console Warn msg NoArg).
Definition console_error (msg : string) (arg : console_arg) : M unit :=
  emit (Console Error msg arg).

(** [new WebSocket(url)]: a fresh object in state CONNECTING. *)
Definition new_WebSocket (url : string) : M wsref :=
  w <- gets (λ σ, length (sockets σ)) ;;
  _ <- modify (λ σ, set_sockets (sockets σ ++ [CONNECTING]) σ) ;;
  _ <- emit (NewWebSocket w url) ;;
  ret w.

Definition ws_readyState (w : wsref) : M readyState :=
  gets (λ σ, default CLOSED (sockets σ !! w)).

(** [ws.send(text)], called on an open socket only. *)
Definition ws_send (w : wsref) (text : string) : M unit := emit (WsSend w text).

(** [ws.close()]: starts the closing handshake unless already closing or
    closed; the close event comes later. *)
Definition ws_close (w : wsref) : M unit :=
  _ <- emit (WsClose w) ;;
  modify (λ σ, match sockets σ !! w with
               | Some CONNECTING | Some OPEN => set_sockets (<[w := CLOSING]> (sockets σ)) σ
               | _ => σ
               end).

Definition setTimeout (t : task) (delay : Z) : M unit :=
  _ <- emit (SetTimeout t delay) ;;
  modify (λ σ, set_timers (timers σ ++ [(now σ + delay, t)]) σ).

(** The platform's JSON parser and the collaborators' callbacks are not code
    of the manager: the page supplies them.

    A callback is an arbitrary function: while it runs it may call the public
    methods of the exported manager, and it returns or throws. *)
Inductive action : Type :=
| DoOn (topic : string) (cb : callback)
| DoOff (topic : string) (cb : callback)
| DoSend (message : json)
| DoConnect
| DoDisconnect.

(** What a callback does when called: the calls it makes on the manager, in
    order, and the value it throws in the end, if it throws. *)
Record reaction : Type := { does : list action; raises : option error }.

(** [page_parse s] is [None] when [JSON.parse(s)] throws its SyntaxError.
    [page_listener cb v σ] is what callback [cb] does when called with [v] in
    state [σ]. Callbacks do not write to the value they are handed. *)
Record Page : Type := {
  page_parse : string → option json;
  page_listener : callback → json → world → reaction
}.

(** A page whose callbacks keep away from the manager, like the one of
    pages/Tasks.tsx, which only updates the query cache:
    [listener_throws cb v h] is the value callback [cb] throws when called
    with [v] after the events [h], if it throws. *)
Record Host : Type := {
  JSON_parse : string → option json;
  listener_throws : callback → json → list (Z * effect) → option error
}.

Definition passive (env : Host) : Page :=
  {| page_parse := JSON_parse env;
     page_listener := λ cb v σ,
       {| does := []; raises := listener_throws env cb v (trace σ) |} |}.

Coercion passive : Host >-> Page.

(** ** The manager *)

(** [new WebSocketManager()]. *)
Definition fresh : WebSocketManager :=
  {| socket := None; reconnectAttempts := 0; listeners := ∅; ws := None |}.

Definition modify_manager (f : WebSocketManager → WebSocketManager) : M unit :=
  modify (λ σ, set_manager (f (manager σ)) σ).

(** [indexOf]: the first position holding the reference, or -1. *)
Fixpoint indexOf (l : list callback) (cb : callback) : Z :=
  match l with
  | [] => -1
  | x :: rest =>
      if bool_decide (x = cb) then 0
      else let i := indexOf rest cb in if i <? 0 then -1 else i + 1
  end.

(** [l.splice(index, 1)] for an index inside [l]. *)
Definition splice1 (index : Z) (l : list callback) : list callback :=
  delete (Z.to_nat index) l.

(** [array.splice(index, 1)], in place. *)
Definition splice (a : aref) (index : Z) : M unit :=
  modify (λ σ, set_arrays (<[a := splice1 index (default [] (arrays σ !! a))]> (arrays σ)) σ).

(** [{ type: 'ping' }]. *)
Definition ping : json := JObject [("type", JString "ping")].

Section Manager.
Context (pg : Page).

Definition connectWebSocket : M unit :=
  loc <- gets location ;;
  let protocol := if String.eqb (protocol loc) "https:" then "wss:" else "ws:" in
  let wsUrl := protocol +:+ "//" +:+ host loc +:+ "/ws" in
  w <- new_WebSocket wsUrl ;;
  modify_manager (with_ws (Some w)).

Definition connect : M unit :=
  s <- gets (λ σ, socket (manager σ)) ;;
  if match s with Some s => connected s | None => false end
  then ret tt
  else
    _ <- console_log "Connecting to WebSocket..." NoArg ;;
    connectWebSocket.

Definition heartbeat (w : wsref) : M unit :=
  st <- ws_readyState w ;;
  if bool_decide (st = OPEN) then
    _ <- ws_send w (JSON_stringify ping) ;;
    setTimeout (Heartbeat w) 30000
  else ret tt.

Definition sendHeartbeat (w : wsref) : M unit := heartbeat w.

Definition on (event : string) (cb : callback) : M unit :=
  has <- gets (λ σ, bool_decide (is_Some (listeners (manager σ) !! event))) ;;
  _ <- (if has then ret tt
        else
          a <- new_Array ;;
          modify_manager (λ m, with_listeners (<[event := a]> (listeners m)) m)) ;;
  found <- gets (λ σ, listeners (manager σ) !! event) ;;
  match found with
  | Some a => push a cb
  | None => ret tt
  end.

Definition off (event : string) (cb : callback) : M unit :=
  found <- gets (λ σ, listeners (manager σ) !! event) ;;
  match found with
  | Some a =>
      l <- gets (λ σ, default [] (arrays σ !! a)) ;;
      let index := indexOf l cb in
      if bool_decide (index > -1) then splice a index else ret tt
  | None => ret tt
  end.

Definition send (message : json) : M unit :=
  w <- gets (λ σ, ws (manager σ)) ;;
  match w with
  | Some w =>
      st <- ws_readyState w ;;
      if bool_decide (st = OPEN) then ws_send w (JSON_stringify message)
      else console_warn "WebSocket is not connected"
  | None => console_warn "WebSocket is not connected"
  end.

Definition disconnect : M unit :=
  w <- gets (λ σ, ws (manager σ)) ;;
  _ <- match w with
       | Some w => ws_close w
       | None => ret tt
       end ;;
  modify_manager (with_listeners ∅).

Definition isConnected (σ : world) : bool :=
  match ws (manager σ) with
  | Some w => bool_decide (sockets σ !! w = Some OPEN)
  | None => false
  end.

(** A call a callback makes on the manager. *)
Definition perform (a : action) : M unit :=
  match a with
  | DoOn t cb => on t cb
  | DoOff t cb => off t cb
  | DoSend m => send m
  | DoConnect => connect
  | DoDisconnect => disconnect
  end.

Fixpoint perform_all (acts : list action) : M unit :=
  match acts with
  | [] => ret tt
  | a :: rest => _ <- perform a ;; perform_all rest
  end.

(** [listener(v)]: the call is observed, the callback makes its calls on the
    manager, then returns or throws. *)
Definition call (listener : callback) (v : json) : M unit :=
  r <- gets (page_listener pg listener v) ;;
  _ <- emit (Call listener v) ;;
  _ <- perform_all (does r) ;;
  match raises r with
  | Some e => throw e
  | None => ret tt
  end.

(** The arrow function [handleMessage] hands to [forEach]. *)
Definition notify (message : json) (listener : callback) : M unit :=
  try_catch
    (data <- lift (get_prop message "data") ;;
     call listener (or_else data message))
    (λ error, console_error "Error in WebSocket listener:" (ArgError error)).

(** The registry is keyed by strings only, so a [type] that is not a
    string finds nothing; then the loop runs over a new empty array and
    visits nothing. *)
Definition handleMessage (message : json) : M unit :=
  _ <- console_log "Received WebSocket message:" (ArgValue message) ;;
  type <- lift (get_prop message "type") ;;
  found <- gets (λ σ, match type with
                      | Some (JString t) => listeners (manager σ) !! t
                      | _ => None
                      end) ;;
  match found with
  | Some a => forEach a (notify message)
  | None => ret tt
  end.

(** The state in which [handleMessage] calls the [k]-th element of the
    array [a] it iterates: after the log of the receipt and the calls of the
    elements before it. *)
Definition at_listener (message : json) (a : aref) (k : nat) (σ : world) : world :=
  (forEach_from a 0 k (notify message)
     (console_log "Received WebSocket message:" (ArgValue message) σ).2).2.

Definition handleReconnect : M unit :=
  attempts <- gets (λ σ, reconnectAttempts (manager σ)) ;;
  if bool_decide (attempts < maxReconnectAttempts) then
    _ <- modify_manager (with_reconnectAttempts (attempts + 1)) ;;
    attempts <- gets (λ σ, reconnectAttempts (manager σ)) ;;
    _ <- console_log ("Attempting to reconnect... (" +:+ pretty attempts +:+ "/"
                      +:+ pretty maxReconnectAttempts +:+ ")") NoArg ;;
    setTimeout Reconnect (reconnectDelay * attempts)
  else console_error "Max reconnection attempts reached" NoArg.

(** The handlers [connectWebSocket] installs on the socket [w] it creates. *)
Definition onopen (w : wsref) : M unit :=
  _ <- console_log "WebSocket connected" NoArg ;;
  _ <- modify_manager (with_reconnectAttempts 0) ;;
  sendHeartbeat w.

Definition onmessage (data : string) : M unit :=
  try_catch
    (message <- match page_parse pg data with
                | Some v => ret v
                | None => throw (SyntaxError data)
                end ;;
     handleMessage message)
    (λ error, console_error "Failed to parse WebSocket message:" (ArgError error)).

Definition onclose : M unit :=
  _ <- console_log "WebSocket disconnected" NoArg ;;
  handleReconnect.

Definition onerror : M unit :=
  console_error "WebSocket error:" NoArg.

(** ** The event loop *)

(** What can happen to the manager: a collaborator calls a public method,
    the browser reports on a socket, a timeout runs, time passes. *)
Inductive event : Type :=
| CallConnect
| CallDisconnect
| CallOn (topic : string) (cb : callback)
| CallOff (topic : string) (cb : callback)
| CallSend (message : json)
| Opened (w : wsref)
| Message (w : wsref) (data : string)
| Errored (w : wsref)
| Closed (w : wsref)
| Timeout (i : nat)       (* the i-th pending timeout is due and runs *)
| Elapse (d : Z).         (* d milliseconds pass *)

Definition run_task (t : task) : M unit :=
  match t with
  | Reconnect => connect
  | Heartbeat w => heartbeat w
  end.

(** Timeouts run exactly when due: time cannot pass beyond a pending one. *)
Definition enabled (σ : world) (e : event) : bool :=
  match e with
  | Opened w => bool_decide (sockets σ !! w = Some CONNECTING)
  | Message w _ => bool_decide (sockets σ !! w = Some OPEN)
  | Errored w | Closed w =>
      match sockets σ !! w with
      | Some st => bool_decide (st ≠ CLOSED)
      | None => false
      end
  | Timeout i =>
      match timers σ !! i with
      | Some (due, _) => bool_decide (due = now σ)
      | None => false
      end
  | Elapse d =>
      bool_decide (0 ≤ d) && forallb (λ p, now σ + d <=? p.1) (timers σ)
  | _ => true
  end.

(** The browser sets the ready state before it calls [onopen] or
    [onclose]. *)
Definition handler (e : event) : M unit :=
  match e with
  | CallConnect => connect
  | CallDisconnect => disconnect
  | CallOn t cb => on t cb
  | CallOff t cb => off t cb
  | CallSend m => send m
  | Opened w =>
      _ <- modify (λ σ, set_sockets (<[w := OPEN]> (sockets σ)) σ) ;;
      onopen w
  | Message _ data => onmessage data
  | Errored _ => onerror
  | Closed w =>
      _ <- modify (λ σ, set_sockets (<[w := CLOSED]> (sockets σ)) σ) ;;
      onclose
  | Timeout i =>
      due <- gets (λ σ, timers σ !! i) ;;
      _ <- modify (λ σ, set_timers (delete i (timers σ)) σ) ;;
      match due with
      | Some (_, t) => run_task t
      | None => ret tt
      end
  | Elapse d => modify (λ σ, set_now (now σ + d) σ)
  end.

Definition fire (e : event) (σ : world) : world := (handler e σ).2.

(** A run: [None] when an event cannot happen where it stands. *)
Fixpoint run (es : list event) (σ : world) : option world :=
  match es with
  | [] => Some σ
  | e :: rest => if enabled σ e then run rest (fire e σ) else None
  end.

(** Module initialisation: [new WebSocketManager()], then
    [wsManager.connect()]. *)
Definition created (loc : Location) : world :=
  {| location := loc; manager := fresh; arrays := []; sockets := [];
     timers := []; now := 0; trace := [] |}.

Definition boot (loc : Location) : world := fire CallConnect (created loc).

End Manager.

(** ** Reading a trace *)

(** The callback invocations of a trace, in order. *)
Definition calls (tr : list (Z * effect)) : list (callback * json) :=
  omap (λ p, match p.2 with Call cb v => Some (cb, v) | _ => None end) tr.

(** What was sent on socket [w], and when. *)
Definition sent_on (w : wsref) (tr : list (Z * effect)) : list (Z * string) :=
  omap (λ p, match p.2 with
             | WsSend w' text => if bool_decide (w' = w) then Some (p.1, text) else None
             | _ => None
             end) tr.

Global Arguments sent_on : simpl never.

(** The timeouts requested in a trace. *)
Definition scheduled (tr : list (Z * effect)) : list (task * Z) :=
  omap (λ p, match p.2 with SetTimeout t d => Some (t, d) | _ => None end) tr.

(** The transports created in a trace. *)
Definition created_sockets (tr : list (Z * effect)) : list wsref :=
  omap (λ p, match p.2 with NewWebSocket w _ => Some w | _ => None end) tr.

(** What happened between [σ] and a later [σ']. *)
Definition since (σ σ' : world) : list (Z * effect) :=
  drop (length (trace σ)) (trace σ').

Global Arguments since : simpl never.

(** The topic an envelope is dispatched on: its [type], when a string. *)
Definition topic_of (message : json) : option string :=
  match get_prop message "type" with
  | inr (Some (JString t)) => Some t
  | _ => None
  end.

(** The listeners registered on a topic ([[]] when there are none): the
    content of the topic's array. *)
Definition registered (σ : world) (t : string) : list callback :=
  default [] (listeners (manager σ) !! t ≫= λ a, arrays σ !! a).

(** The argument handed to listeners: [message.data || message]. *)
Definition payload (message : json) : json :=
  match get_prop message "data" with
  | inr d => or_else d message
  | inl _ => message
  end.

(** Effects that stay inside the page: console output and callback calls. *)
Definition local (e : effect) : Prop :=
  match e with
  | Console _ _ _ | Call _ _ => True
  | _ => False
  end.

(** What delivering [v] to the listeners [l] adds to the trace [h] at time
    [t]: each call, followed by the logged exception when it throws. *)
Fixpoint delivered (env : Host) (t : Z) (v : json) (l : list callback)
    (h : list (Z * effect)) : list (Z * effect) :=
  match l with
  | [] => []
  | cb :: rest =>
      let one :=
        (t, Call cb v) ::
        match listener_throws env cb v h with
        | Some e => [(t, Console Error "Error in WebSocket listener:" (ArgError e))]
        | None => []
        end in
      one ++ delivered env t v rest (h ++ one)
  end.

(** ** Runs *)

Definition is_Opened (e : event) : bool :=
  match e with Opened _ => true | _ => false end.
Definition is_Closed (e : event) : bool :=
  match e with Closed _ => true | _ => false end.

(** How many transports closed during a run. *)
Definition closes (es : list event) : Z :=
  Z.of_nat (length (List.filter is_Closed es)).

(** Socket [w] has started closing or is closed. *)
Definition shut (σ : world) (w : wsref) : Prop :=
  sockets σ !! w = Some CLOSING ∨ sockets σ !! w = Some CLOSED.

(** * Sample hosts and scenarios *)

Definition here : Location := {| protocol := "https:"; host := "nas.local:8000" |}.

Definition task_update : json :=
  JObject [("type", JString "task_status_update");
           ("data", JObject [("id", JString "t1"); ("status", JString "running")])].

Definition zero_progress : json :=
  JObject [("type", JString "progress"); ("data", JNumber 0)].

(** A host whose parser knows nothing and whose callbacks all return. *)
Definition quiet : Host :=
  {| JSON_parse := λ _, None; listener_throws := λ _ _ _, None |}.

(** A host whose parser reads the two envelopes above and whose callback 0
    throws. *)
Definition demo : Host :=
  {| JSON_parse := λ s,
       if String.eqb s (JSON_stringify task_update) then Some task_update
       else if String.eqb s (JSON_stringify zero_progress) then Some zero_progress
       else None;
     listener_throws := λ cb _ _,
       if bool_decide (cb = 0%nat) then Some (Thrown 7) else None |}.

(** [n] failed connections in a row after start-up: each transport closes
    before it opens, and the retry runs when it is due. *)
Fixpoint outages (n : nat) : list event :=
  match n with
  | O => [CallConnect]
  | S m => outages m ++ [Closed m; Elapse (1000 * Z.of_nat n); Timeout 0]
  end.




(** The text of the keep-alive probe. *)
Definition ping_wire : string :=
  "{" +:+ dquote +:+ "type" +:+ dquote +:+ ":" +:+ dquote +:+ "ping" +:+ dquote +:+ "}".

(** ** The heartbeat of one socket *)

(** When the pending heartbeats of socket [w] are due. *)
Definition heartbeats_due (w : wsref) (ts : list (Z * task)) : list Z :=
  omap (λ p, match p.2 with
             | Heartbeat w' => if bool_decide (w' = w) then Some p.1 else None
             | Reconnect => None
             end) ts.

(** [n] probes, 30,000 ms apart, the first one at [t0]. *)
Fixpoint probes (t0 : Z) (n : nat) : list (Z * string) :=
  match n with
  | O => []
  | S m => (t0, ping_wire) :: probes (t0 + 30000) m
  end.

(** What holds of a socket in state [st], of what was sent on it and of
    its pending heartbeats: nothing was sent on it before it opened; while it
    is open the probes were sent on time and the next one is pending;
    afterwards at most one heartbeat is left over. *)
Definition cadence_at (st : option readyState) (sent : list (Z * string))
    (due : list Z) : Prop :=
  match st with
  | None | Some CONNECTING => sent = [] ∧ due = []
  | Some OPEN =>
      ∃ t0 n, sent = probes t0 (S n) ∧ due = [t0 + 30000 * Z.of_nat (S n)]
  | Some _ =>
      ∃ t0 n, sent = probes t0 n ∧ (due = [] ∨ due = [t0 + 30000 * Z.of_nat n])
  end.

Definition cadence (σ : world) (w : wsref) : Prop :=
  cadence_at (sockets σ !! w) (sent_on w (trace σ)) (heartbeats_due w (timers σ)).

Definition is_CallSend (e : event) : bool :=
  match e with CallSend _ => true | _ => false end.

Global Arguments heartbeats_due : simpl never.

(** ** More ways to read a world *)

(** The URLs of the transports created in a trace. *)
Definition urls (tr : list (Z * effect)) : list string :=
  omap (λ p, match p.2 with NewWebSocket _ url => Some url | _ => None end) tr.

(** The URL [connectWebSocket] builds from the page's location. *)
Definition ws_url (loc : Location) : string :=
  (if String.eqb (protocol loc) "https:" then "wss:" else "ws:")
  +:+ "//" +:+ host loc +:+ "/ws".

(** The timeouts the manager may request: a heartbeat 30,000 ms ahead, or a
    reconnection 1000*k ms ahead with k from 1 to 5. *)
Definition known_timeout (p : task * Z) : Prop :=
  match p.1 with
  | Heartbeat _ => p.2 = 30000
  | Reconnect => ∃ k, 1 ≤ k ≤ 5 ∧ p.2 = 1000 * k
  end.

(** The calls that write the registry. *)
Definition writes_registry (e : event) : bool :=
  match e with
  | CallOn _ _ | CallOff _ _ | CallDisconnect => true
  | _ => false
  end.

(** The socket created last, if any. *)
Definition latest (ss : list readyState) : option wsref :=
  match ss with
  | [] => None
  | _ :: _ => Some (length ss - 1)%nat
  end.

(** The transport the manager holds is the one created last. *)
Definition holds_latest (σ : world) : Prop := ws (manager σ) = latest (sockets σ).

Global Arguments urls : simpl never.

(** ** The registry and its arrays *)

(** Every topic of the map refers to an array of the heap, and no two topics
    to the same one. *)
Definition registry_ok (σ : world) : Prop :=
  (∀ t a, listeners (manager σ) !! t = Some a → (a < length (arrays σ))%nat)
  ∧ (∀ t t' a, listeners (manager σ) !! t = Some a →
               listeners (manager σ) !! t' = Some a → t = t').

(** Every call the callbacks of the page make on the manager is among
    [allowed]. *)
Definition page_does (allowed : action → Prop) (pg : Page) : Prop :=
  ∀ cb v σ, Forall allowed (does (page_listener pg cb v σ)).

(** No callback of the page calls [send]. *)
Definition never_sends (pg : Page) : Prop :=
  page_does (λ a, match a with DoSend _ => False | _ => True end) pg.

(** No callback of the page calls [on], [off] or [disconnect]. *)
Definition keeps_registry (pg : Page) : Prop :=
  page_does (λ a, match a with
                  | DoOn _ _ | DoOff _ _ | DoDisconnect => False
                  | _ => True
                  end) pg.

(** The calls of a callback do not unregister on topic [t]. *)
Definition keeps_topic (t : string) (acts : list action) : Prop :=
  Forall (λ a, match a with
               | DoOff t' _ => t' ≠ t
               | _ => True
               end) acts.

(** In the dispatch of [message] from [σ], no listener of topic [t] calls
    [off] on [t] when its turn comes. *)
Definition undisturbed (pg : Page) (message : json) (t : string) (σ : world) : Prop :=
  ∀ a k cb,
    listeners (manager σ) !! t = Some a →
    registered σ t !! k = Some cb →
    keeps_topic t (does (page_listener pg cb (payload message)
                           (at_listener pg message a k σ))).




(** ** Pages whose callbacks call the manager *)

(** Callback 1 unregisters itself from topic "x" when it is called, as a
    listener meant to run once does; callback 3 does the same and then
    throws; the others return at once. *)
Definition once : Page :=
  {| page_parse := λ _, None;
     page_listener := λ cb _ _,
       if bool_decide (cb = 1%nat) then
         {| does := [DoOff "x" 1%nat]; raises := None |}
       else if bool_decide (cb = 3%nat) then
         {| does := [DoOff "x" 3%nat]; raises := Some (Thrown 7) |}
       else {| does := []; raises := None |} |}.

(** Callback 1 registers callback 9 on the topic it listens on, answers on
    the socket and unregisters itself from another topic; callback 3
    disconnects the manager and throws; the others return at once. *)
Definition busy : Page :=
  {| page_parse := λ _, None;
     page_listener := λ cb _ _,
       if bool_decide (cb = 1%nat) then
         {| does := [DoOn "x" 9%nat; DoSend ping; DoOff "y" 1%nat]; raises := None |}
       else if bool_decide (cb = 3%nat) then
         {| does := [DoDisconnect]; raises := Some (Thrown 7) |}
       else {| does := []; raises := None |} |}.

(** * The pages that show what arrives *)

(** [l.slice(-n)]: the last [n] elements of [l], all of them when it has
    fewer. *)
Definition slice_last {A} (n : nat) (l : list A) : list A :=
  drop (length l - n) l.

(** ** pages/Logs.tsx: the live log view *)

Module Logs.

(** [type === 'log_entry']. *)
Definition is_log_entry (type : option json) : bool :=
  match type with
  | Some (JString s) => String.eqb s "log_entry"
  | _ => false
  end.

(** [onmessage] of the log stream, as a function of the state
    [realTimeLogs]; an entry is [message.data], [None] when it is
    [undefined]. What [JSON.parse] or the read of [type] throws is caught
    and logged, and the state stays. *)
Definition onmessage (parse : string → option json) (data : string)
    (realTimeLogs : list (option json)) : list (option json) :=
  match parse data with
  | None => realTimeLogs
  | Some message =>
      match get_prop message "type" with
      | inl _ => realTimeLogs
      | inr type =>
          if is_log_entry type then
            match get_prop message "data" with
            | inr entry => slice_last 99 realTimeLogs ++ [entry]
            | inl _ => realTimeLogs
            end
          else realTimeLogs
      end
  end.

(** The entries a stream of frames carries, in order. *)
Definition entries (parse : string → option json) (stream : list string)
  : list (option json) :=
  omap (λ data,
          match parse data with
          | Some message =>
              match get_prop message "type", get_prop message "data" with
              | inr type, inr entry => if is_log_entry type then Some entry else None
              | _, _ => None
              end
          | None => None
          end) stream.

(** The state after the frames of [stream] arrived one by one. *)
Definition after (parse : string → option json) (stream : list string)
    (realTimeLogs : list (option json)) : list (option json) :=
  foldl (λ logs data, onmessage parse data logs) realTimeLogs stream.

End Logs.

(** ** pages/System.tsx: the samples behind the charts *)

Module System.

(** The updater [onSuccess] hands to [setPerformanceData], for the sample
    built from the response. *)
Definition onSuccess {A} (sample : A) (prev : list A) : list A :=
  slice_last 20 (prev ++ [sample]).

Definition after {A} (samples : list A) (performanceData : list A) : list A :=
  foldl (λ prev sample, onSuccess sample prev) performanceData samples.

End System.

(** ** pages/Tasks.tsx: the task list kept up to date *)

Module Tasks.

(** An object, as the list of its properties. *)
Definition object : Type := list (string * json).

(** [a === b] for two property values of objects that come from different
    JSON texts: primitives are compared by value; an array or object is
    never the same as one from elsewhere. *)
Definition strict_eq (a b : option json) : bool :=
  match a, b with
  | None, None => true
  | Some JNull, Some JNull => true
  | Some (JBool x), Some (JBool y) => Bool.eqb x y
  | Some (JNumber x), Some (JNumber y) => x =? y
  | Some (JString x), Some (JString y) => String.eqb x y
  | _, _ => false
  end.

(** [{ ...task, ...data }]: the properties of [task], with the values
    [data] has for them, then the properties only [data] has. *)
Definition spread (task data : object) : object :=
  map (λ p, (p.1, default p.2 (assoc p.1 data))) task
  ++ List.filter (λ p, match assoc p.1 task with None => true | Some _ => false end) data.

(** The updater [handleTaskUpdate] hands to [setQueryData]; [None] is the
    [undefined] of a cache that holds no task list yet. *)
Definition handleTaskUpdate (data : object) (oldTasks : option (list object))
  : option (list object) :=
  match oldTasks with
  | None => None
  | Some tasks =>
      Some (map (λ task, if strict_eq (assoc "id" task) (assoc "id" data)
                         then spread task data else task) tasks)
  end.

End Tasks.

(** * Tactics *)

(** Unfolds the primitives of [M] and evaluates. *)
Ltac unfold_M :=
  unfold console_log, console_warn, console_error, setTimeout, ws_send, ws_close,
    ws_readyState, new_WebSocket, new_Array, push, splice, modify_manager, emit,
    modify, gets, lift, throw, ret, bind, try_catch; cbn.

(** Reads the fields of a world that is written out. *)
Ltac proj :=
  cbn [location manager arrays sockets timers now trace
       set_manager set_arrays set_sockets set_timers set_now set_trace].

(** Reads off what a written-out world added to the trace of [σ]. *)
Ltac since_eval :=
  unfold since; proj; rewrite <- ?app_assoc, ?drop_app_length, ?drop_all.

Ltac unfold_handlers :=
  unfold fire, handler, run_task, connect, connectWebSocket, disconnect, on, off,
    send, onopen, onclose, onerror, sendHeartbeat, heartbeat, handleReconnect.

(** * Properties *)

Lemma set_trace_same σ : set_trace (trace σ) σ = σ.
Proof. by destruct σ. Qed.

Lemma since_ext σ σ' ext : trace σ' = trace σ ++ ext → since σ σ' = ext.
Proof. unfold since. intros ->. by rewrite drop_app_length. Qed.

Lemma since_set_trace σ ext : since σ (set_trace (trace σ ++ ext) σ) = ext.
Proof. by apply since_ext. Qed.

Lemma calls_app tr1 tr2 : calls (tr1 ++ tr2) = calls tr1 ++ calls tr2.
Proof. apply omap_app. Qed.

Lemma sent_on_app w tr1 tr2 : sent_on w (tr1 ++ tr2) = sent_on w tr1 ++ sent_on w tr2.
Proof. apply omap_app. Qed.

Lemma scheduled_app tr1 tr2 : scheduled (tr1 ++ tr2) = scheduled tr1 ++ scheduled tr2.
Proof. apply omap_app. Qed.

Lemma local_silent ext :
  Forall (λ p, local p.2) ext →
  (∀ w, sent_on w ext = []) ∧ scheduled ext = [] ∧ created_sockets ext = [].
Proof.
  unfold sent_on.
  induction 1 as [|[t e] ext He _ (IHsent & IHsched & IHnew)]; [done|].
  destruct e; done.
Qed.

(** ** The registry *)

Lemma indexOf_range l cb : -1 ≤ indexOf l cb.
Proof.
  induction l as [|x l IH]; cbn; [lia|].
  case_bool_decide; [lia|]. destruct (indexOf l cb <? 0) eqn:E; lia.
Qed.

Lemma indexOf_absent l cb : cb ∉ l → indexOf l cb = -1.
Proof.
  induction l as [|x l IH]; intros Hnot; cbn; [done|].
  apply not_elem_of_cons in Hnot as [Hne Hnot].
  rewrite bool_decide_eq_false_2 by done. rewrite (IH Hnot). done.
Qed.

(** [indexOf] finds the first occurrence. *)
Lemma indexOf_first l1 cb l2 :
  cb ∉ l1 → indexOf (l1 ++ cb :: l2) cb = Z.of_nat (length l1).
Proof.
  induction l1 as [|x l1 IH]; intros Hnot; cbn.
  - by rewrite bool_decide_eq_true_2.
  - apply not_elem_of_cons in Hnot as [Hne Hnot].
    rewrite bool_decide_eq_false_2 by done. rewrite (IH Hnot).
    destruct (Z.of_nat (length l1) <? 0) eqn:E; lia.
Qed.

Lemma splice1_first l1 cb l2 :
  splice1 (Z.of_nat (length l1)) (l1 ++ cb :: l2) = l1 ++ l2.
Proof.
  unfold splice1. rewrite Nat2Z.id. apply delete_middle.
Qed.

Section Registry.
Context (pg : Page).

Lemma fire_CallOn t cb σ : fire pg (CallOn t cb) σ = (on t cb σ).2.
Proof. done. Qed.

Lemma fire_CallOff t cb σ : fire pg (CallOff t cb) σ = (off t cb σ).2.
Proof. done. Qed.

Lemma insert_snoc_last {A} (l : list A) x y : <[length l := y]> (l ++ [x]) = l ++ [y].
Proof.
  induction l as [|z l IH]; [done|]. cbn. f_equal. exact IH.
Qed.

(** [on]: a push on the topic's array, created first when the topic has
    none. *)
Lemma on_unfold t cb σ :
  on t cb σ =
  (Ok tt,
   match listeners (manager σ) !! t with
   | Some a => set_arrays (<[a := default [] (arrays σ !! a) ++ [cb]]> (arrays σ)) σ
   | None =>
       set_arrays (arrays σ ++ [[cb]])
         (set_manager (with_listeners (<[t := length (arrays σ)]> (listeners (manager σ)))
                         (manager σ)) σ)
   end).
Proof.
  unfold on. unfold_M.
  destruct (listeners (manager σ) !! t) as [a|] eqn:Ht; cbn.
  - by rewrite Ht.
  - rewrite lookup_insert_eq. cbn.
    rewrite list_lookup_middle by done. cbn. by rewrite insert_snoc_last.
Qed.

(** [off]: a splice at the first index holding the reference, if any. *)
Lemma off_unfold t cb σ :
  off t cb σ =
  (Ok tt,
   match listeners (manager σ) !! t with
   | Some a =>
       if bool_decide (indexOf (default [] (arrays σ !! a)) cb > -1) then
         set_arrays (<[a := splice1 (indexOf (default [] (arrays σ !! a)) cb)
                               (default [] (arrays σ !! a))]> (arrays σ)) σ
       else σ
   | None => σ
   end).
Proof.
  unfold off. unfold_M.
  destruct (listeners (manager σ) !! t) as [a|]; [|done]. by case_bool_decide.
Qed.

Lemma registered_on t cb t' σ :
  registry_ok σ →
  registered (on t cb σ).2 t' =
  if decide (t = t') then registered σ t ++ [cb] else registered σ t'.
Proof.
  intros [Hvalid Hinj]. rewrite on_unfold. cbn [snd]. unfold registered.
  destruct (listeners (manager σ) !! t) as [a|] eqn:Ht; proj.
  - destruct (decide (t = t')) as [<-|Hne].
    + rewrite Ht. cbn. rewrite list_lookup_insert_eq by eauto. done.
    + destruct (listeners (manager σ) !! t') as [a'|] eqn:Ht'; [|done]. cbn.
      rewrite list_lookup_insert_ne; [done|]. intros ->. eauto.
  - cbn [listeners with_listeners]. destruct (decide (t = t')) as [<-|Hne].
    + rewrite lookup_insert_eq. cbn. by rewrite list_lookup_middle.
    + rewrite lookup_insert_ne by done.
      destruct (listeners (manager σ) !! t') as [a'|] eqn:Ht'; [|done]. cbn.
      by rewrite lookup_app_l by eauto.
Qed.

Lemma registry_ok_on t cb σ : registry_ok σ → registry_ok (on t cb σ).2.
Proof.
  intros [Hvalid Hinj]. rewrite on_unfold. cbn [snd]. unfold registry_ok.
  destruct (listeners (manager σ) !! t) as [a|] eqn:Ht; proj.
  - rewrite length_insert. eauto.
  - cbn [listeners with_listeners]. rewrite length_app. cbn [length]. split.
    + intros t1 a1. rewrite lookup_insert. case_decide; intros H1; simplify_eq.
      * lia.
      * apply Hvalid in H1. lia.
    + intros t1 t2 a1. rewrite !lookup_insert.
      repeat case_decide; intros H1 H2; simplify_eq; try done.
      * apply Hvalid in H2. lia.
      * apply Hvalid in H1. lia.
      * eauto.
Qed.

Lemma registry_ok_off t cb σ : registry_ok σ → registry_ok (off t cb σ).2.
Proof.
  intros [Hvalid Hinj]. rewrite off_unfold. cbn [snd]. unfold registry_ok.
  destruct (listeners (manager σ) !! t) as [a|]; [|done].
  case_bool_decide; [|done]. proj. rewrite length_insert. eauto.
Qed.

(** [off] removes the first occurrence of the reference, and only it. *)
Lemma registered_off_first t cb l1 l2 σ :
  registered σ t = l1 ++ cb :: l2 → cb ∉ l1 →
  registered (off t cb σ).2 t = l1 ++ l2.
Proof.
  intros Hreg Hnot. rewrite off_unfold. cbn [snd]. unfold registered in *.
  destruct (listeners (manager σ) !! t) as [a|] eqn:Ht; [|by destruct l1].
  cbn in Hreg. destruct (arrays σ !! a) as [l|] eqn:Ha; [|by destruct l1].
  cbn in Hreg. subst l. cbn [default from_option id].
  rewrite indexOf_first by done.
  rewrite bool_decide_eq_true_2 by lia. proj. rewrite Ht. cbn.
  rewrite list_lookup_insert_eq by (by eapply lookup_lt_Some).
  cbn. apply splice1_first.
Qed.

Lemma registered_off_other t cb t' σ :
  registry_ok σ → t ≠ t' → registered (off t cb σ).2 t' = registered σ t'.
Proof.
  intros [Hvalid Hinj] Hne. rewrite off_unfold. cbn [snd]. unfold registered.
  destruct (listeners (manager σ) !! t) as [a|] eqn:Ht; [|done].
  case_bool_decide; [|done]. proj.
  destruct (listeners (manager σ) !! t') as [a'|] eqn:Ht'; [|done]. cbn.
  rewrite list_lookup_insert_ne; [done|]. intros ->. eauto.
Qed.

Lemma off_absent t cb σ : cb ∉ registered σ t → off t cb σ = (Ok tt, σ).
Proof.
  intros Hnot. rewrite off_unfold. unfold registered in Hnot.
  destruct (listeners (manager σ) !! t) as [a|]; [|done]. cbn in Hnot.
  rewrite indexOf_absent by done. by rewrite bool_decide_eq_false_2.
Qed.

End Registry.

(** ** Callbacks that call the manager *)

Lemma bind_ok {A B} (m : M A) (k : A → M B) σ a σ' :
  m σ = (Ok a, σ') → bind m k σ = k a σ'.
Proof. unfold bind. by intros ->. Qed.


(** Reading [type] of [null] throws: nothing is dispatched. *)
Lemma handleMessage_null pg σ :
  handleMessage pg JNull σ =
  (Raise (TypeError "type"),
   set_trace (trace σ ++
     [(now σ, Console Log "Received WebSocket message:" (ArgValue JNull))]) σ).
Proof. done. Qed.






(** Every public method returns normally, whatever the state. *)
Lemma perform_returns act σ : (perform act σ).1 = Ok tt.
Proof.
  destruct act as [t cb|t cb|m| |]; cbn [perform].
  - by rewrite on_unfold.
  - by rewrite off_unfold.
  - unfold send. unfold_M. by repeat case_match.
  - unfold connect, connectWebSocket. unfold_M. by repeat case_match.
  - unfold disconnect. unfold_M. by repeat case_match.
Qed.



(** ** What a dispatch preserves *)

(** A property of the world that the console, the calls of callbacks and
    the public methods the callbacks of the page call preserve is preserved
    by whatever a message sets off. *)
Section Preserved.
Context (pg : Page) (allowed : action → Prop) (P : world → Prop).
Context (pg_allowed : page_does allowed pg).
Context (P_emit : ∀ e σ, local e → P σ → P (emit e σ).2).
Context (P_perform : ∀ act σ, allowed act → P σ → P (perform act σ).2).

Lemma perform_all_preserved acts σ :
  Forall allowed acts → P σ → ∃ σ', perform_all acts σ = (Ok tt, σ') ∧ P σ'.
Proof.
  intros Hacts. revert σ. induction Hacts as [|act acts Hact _ IH]; intros σ HP.
  - by exists σ.
  - pose proof (perform_returns act σ) as Hr.
    pose proof (P_perform act σ Hact HP) as HP1.
    destruct (perform act σ) as [r σ1] eqn:E. cbn in Hr, HP1. subst r.
    cbn [perform_all]. rewrite (bind_ok _ _ _ _ _ E). by apply IH.
Qed.

Lemma notify_preserved message cb σ :
  P σ → ∃ σ', notify pg message cb σ = (Ok tt, σ') ∧ P σ'.
Proof.
  intros HP. unfold notify, try_catch.
  destruct (get_prop message "data") as [e|d]; cbn [lift].
  - unfold bind at 1, throw at 1. cbv beta iota.
    eexists. split; [reflexivity|]. by apply P_emit.
  - unfold bind at 1, ret at 1. cbv beta iota.
    unfold call. unfold bind at 1, gets at 1. cbv beta iota.
    unfold bind at 1.
    assert (emit (Call cb (or_else d message)) σ
            = (Ok tt, (emit (Call cb (or_else d message)) σ).2)) as -> by done.
    cbv beta iota.
    destruct (perform_all_preserved
                (does (page_listener pg cb (or_else d message) σ))
                (emit (Call cb (or_else d message)) σ).2) as (σ2 & Heq & HP2).
    { apply pg_allowed. }
    { by apply P_emit. }
    rewrite (bind_ok _ _ _ _ _ Heq).
    destruct (raises _) as [e|].
    + eexists. split; [reflexivity|]. by apply P_emit.
    + by exists σ2.
Qed.

Lemma forEach_from_preserved a k n message σ :
  P σ → ∃ σ', forEach_from a k n (notify pg message) σ = (Ok tt, σ') ∧ P σ'.
Proof.
  revert k σ. induction n as [|n IH]; intros k σ HP.
  - by exists σ.
  - cbn [forEach_from]. unfold bind at 1, gets at 1.
    destruct (arrays σ !! a ≫= λ l, l !! k) as [cb|].
    + destruct (notify_preserved message cb σ HP) as (σ1 & Heq & HP1).
      rewrite (bind_ok _ _ _ _ _ Heq). by apply IH.
    + unfold bind at 1, ret at 1. by apply IH.
Qed.

Lemma handleMessage_preserved message σ :
  P σ → P (handleMessage pg message σ).2.
Proof.
  intros HP. unfold handleMessage, bind at 1, console_log.
  assert (P (emit (Console Log "Received WebSocket message:" (ArgValue message)) σ).2)
    as HP0 by (by apply P_emit).
  assert (emit (Console Log "Received WebSocket message:" (ArgValue message)) σ
          = (Ok tt, (emit (Console Log "Received WebSocket message:" (ArgValue message)) σ).2))
    as -> by done.
  cbv beta iota.
  destruct (get_prop message "type") as [e|ty]; cbn [lift]; [done|].
  unfold bind at 1, ret at 1, bind at 1, gets at 1. cbv beta iota.
  match goal with |- context [match ?x with Some a => forEach a _ | None => _ end] =>
    destruct x as [a|] end; [|done].
  unfold forEach, bind at 1, gets at 1.
  by destruct (forEach_from_preserved a 0
       (length (default [] (arrays (emit (Console Log "Received WebSocket message:"
                                       (ArgValue message)) σ).2 !! a)))
       message _ HP0) as (σ' & -> & HP').
Qed.

Lemma onmessage_preserved data σ :
  P σ → ∃ σ', onmessage pg data σ = (Ok tt, σ') ∧ P σ'.
Proof.
  intros HP. unfold onmessage, try_catch.
  destruct (page_parse pg data) as [message|].
  - unfold bind at 1, ret at 1.
    pose proof (handleMessage_preserved message σ HP) as HP1.
    destruct (handleMessage pg message σ) as [[[]|e] σ1]; cbn in HP1.
    + by exists σ1.
    + eexists. split; [reflexivity|]. by apply P_emit.
  - unfold bind at 1, throw at 1.
    eexists. split; [reflexivity|]. by apply P_emit.
Qed.

End Preserved.
Section Active.
Context (pg : Page).










End Active.
(** ** Dispatch on any page *)



Section AnyPage.
Context (pg : Page).



End AnyPage.

(** ** One event at a time *)

Section Steps.
Context (pg : Page).

Lemma fire_Message_preserved_among allowed (P : world → Prop) w data σ :
  page_does allowed pg →
  (∀ e σ, local e → P σ → P (emit e σ).2) →
  (∀ act σ, allowed act → P σ → P (perform act σ).2) →
  P σ → P (fire pg (Message w data) σ).
Proof.
  intros Hpg He Hp HP. unfold fire, handler.
  by destruct (onmessage_preserved pg allowed P Hpg He Hp data σ HP) as (σ' & -> & ?).
Qed.

Lemma fire_Message_preserved (P : world → Prop) w data σ :
  (∀ e σ, local e → P σ → P (emit e σ).2) →
  (∀ act σ, P σ → P (perform act σ).2) →
  P σ → P (fire pg (Message w data) σ).
Proof.
  intros He Hp. apply (fire_Message_preserved_among (λ _, True)); [|done|auto].
  intros cb v σ0. by apply Forall_true.
Qed.

(** No public method a callback may call touches the attempt counter or
    field [socket]. *)
Lemma perform_reconnectAttempts act σ :
  reconnectAttempts (manager (perform act σ).2) = reconnectAttempts (manager σ).
Proof.
  destruct act; unfold perform; unfold_handlers; unfold_M;
    repeat case_match; by simplify_eq/=.
Qed.

Lemma perform_socket act σ :
  socket (manager (perform act σ).2) = socket (manager σ).
Proof.
  destruct act; unfold perform; unfold_handlers; unfold_M;
    repeat case_match; by simplify_eq/=.
Qed.

(** Only an open resets the attempt counter, only a close advances it,
    whatever the callbacks do. *)
Lemma fire_reconnectAttempts e σ :
  reconnectAttempts (manager (fire pg e σ)) =
  match e with
  | Opened _ => 0
  | Closed _ =>
      if bool_decide (reconnectAttempts (manager σ) < maxReconnectAttempts)
      then reconnectAttempts (manager σ) + 1
      else reconnectAttempts (manager σ)
  | _ => reconnectAttempts (manager σ)
  end.
Proof.
  destruct e as [| |t cb|t cb|m|w|w data|w|w|i|d].
  7: { apply (fire_Message_preserved
                (λ σ', reconnectAttempts (manager σ') = reconnectAttempts (manager σ)));
       [done| |done].
       intros act σ' <-. apply perform_reconnectAttempts. }
  all: unfold_handlers; unfold_M; repeat case_match; by simplify_eq/=.
Qed.

(** Nothing assigns field [socket]. *)
Lemma fire_socket e σ : socket (manager (fire pg e σ)) = socket (manager σ).
Proof.
  destruct e as [| |t cb|t cb|m|w|w data|w|w|i|d].
  7: { apply (fire_Message_preserved
                (λ σ', socket (manager σ') = socket (manager σ))); [done| |done].
       intros act σ' <-. apply perform_socket. }
  all: unfold_handlers; unfold_M; repeat case_match; by simplify_eq/=.
Qed.

End Steps.

Section Equations.
Context (env : Page).

Lemma fire_Closed w σ :
  fire env (Closed w) σ =
  let a := reconnectAttempts (manager σ) in
  if bool_decide (a < maxReconnectAttempts) then
    {| location := location σ;
       manager := with_reconnectAttempts (a + 1) (manager σ);
       arrays := arrays σ;
       sockets := <[w := CLOSED]> (sockets σ);
       timers := timers σ ++ [(now σ + reconnectDelay * (a + 1), Reconnect)];
       now := now σ;
       trace := trace σ ++
         [(now σ, Console Log "WebSocket disconnected" NoArg);
          (now σ, Console Log ("Attempting to reconnect... (" +:+ pretty (a + 1)
                               +:+ "/" +:+ pretty maxReconnectAttempts +:+ ")") NoArg);
          (now σ, SetTimeout Reconnect (reconnectDelay * (a + 1)))] |}
  else
    {| location := location σ;
       manager := manager σ;
       arrays := arrays σ;
       sockets := <[w := CLOSED]> (sockets σ);
       timers := timers σ;
       now := now σ;
       trace := trace σ ++
         [(now σ, Console Log "WebSocket disconnected" NoArg);
          (now σ, Console Error "Max reconnection attempts reached" NoArg)] |}.
Proof.
  unfold_handlers. unfold_M. case_bool_decide; cbn; by rewrite <- !app_assoc.
Qed.

Lemma fire_Opened w σ :
  sockets σ !! w = Some CONNECTING →
  fire env (Opened w) σ =
  {| location := location σ;
     manager := with_reconnectAttempts 0 (manager σ);
     arrays := arrays σ;
     sockets := <[w := OPEN]> (sockets σ);
     timers := timers σ ++ [(now σ + 30000, Heartbeat w)];
     now := now σ;
     trace := trace σ ++
       [(now σ, Console Log "WebSocket connected" NoArg);
        (now σ, WsSend w (JSON_stringify ping));
        (now σ, SetTimeout (Heartbeat w) 30000)] |}.
Proof.
  intros Hw. unfold_handlers. unfold_M.
  rewrite list_lookup_insert_eq by (by eapply lookup_lt_Some). cbn.
  case_bool_decide; [|done]. cbn. by rewrite <- !app_assoc.
Qed.

(** A due heartbeat. *)
Lemma fire_Heartbeat i due w σ :
  timers σ !! i = Some (due, Heartbeat w) →
  fire env (Timeout i) σ =
  if bool_decide (sockets σ !! w = Some OPEN) then
    {| location := location σ;
       manager := manager σ;
       arrays := arrays σ;
       sockets := sockets σ;
       timers := delete i (timers σ) ++ [(now σ + 30000, Heartbeat w)];
       now := now σ;
       trace := trace σ ++
         [(now σ, WsSend w (JSON_stringify ping));
          (now σ, SetTimeout (Heartbeat w) 30000)] |}
  else set_timers (delete i (timers σ)) σ.
Proof.
  intros Hi. unfold_handlers. unfold_M. rewrite Hi. unfold_M.
  destruct (sockets σ !! w) as [[]|]; cbn; repeat case_bool_decide;
    cbn; try done; by rewrite <- ?app_assoc.
Qed.

(** A due reconnection is a call of [connect]. *)
Lemma fire_Reconnect i due σ :
  timers σ !! i = Some (due, Reconnect) →
  fire env (Timeout i) σ =
  fire env CallConnect (set_timers (delete i (timers σ)) σ).
Proof.
  intros Hi. unfold fire, handler, run_task, bind, gets, modify. by rewrite Hi.
Qed.

Lemma fire_CallConnect σ :
  socket (manager σ) = None →
  fire env CallConnect σ =
  {| location := location σ;
     manager := with_ws (Some (length (sockets σ))) (manager σ);
     arrays := arrays σ;
     sockets := sockets σ ++ [CONNECTING];
     timers := timers σ;
     now := now σ;
     trace := trace σ ++
       [(now σ, Console Log "Connecting to WebSocket..." NoArg);
        (now σ, NewWebSocket (length (sockets σ))
                  ((if String.eqb (protocol (location σ)) "https:"
                    then "wss:" else "ws:")
                   +:+ "//" +:+ host (location σ) +:+ "/ws"))] |}.
Proof.
  intros Hs. unfold_handlers. unfold_M. rewrite Hs. cbn.
  by rewrite <- !app_assoc.
Qed.

Lemma fire_CallDisconnect σ :
  fire env CallDisconnect σ =
  match ws (manager σ) with
  | Some w =>
      {| location := location σ;
         manager := with_listeners ∅ (manager σ);
         arrays := arrays σ;
         sockets := match sockets σ !! w with
                    | Some CONNECTING | Some OPEN => <[w := CLOSING]> (sockets σ)
                    | _ => sockets σ
                    end;
         timers := timers σ;
         now := now σ;
         trace := trace σ ++ [(now σ, WsClose w)] |}
  | None => set_manager (with_listeners ∅ (manager σ)) σ
  end.
Proof.
  unfold_handlers. unfold_M. destruct (ws (manager σ)) as [w|]; cbn; [|done].
  by destruct (sockets σ !! w) as [[]|].
Qed.

End Equations.

(** ** Invariants of runs *)

Section Runs.
Context (env : Page).

Lemma run_cons e es σ σ' :
  run env (e :: es) σ = Some σ' ↔
  enabled σ e = true ∧ run env es (fire env e σ) = Some σ'.
Proof. cbn. destruct (enabled σ e); [tauto|]. split; [done|]. by intros []. Qed.

Lemma run_invariant (P : world → Prop) :
  (∀ e σ, enabled σ e = true → P σ → P (fire env e σ)) →
  ∀ es σ σ', run env es σ = Some σ' → P σ → P σ'.
Proof.
  intros Hstep es. induction es as [|e es IH]; intros σ σ' Hrun HP.
  - cbn in Hrun. by simplify_eq.
  - apply run_cons in Hrun as [He Hrun]. eauto.
Qed.

Lemma run_socket_null es σ σ' :
  run env es σ = Some σ' → socket (manager σ) = None → socket (manager σ') = None.
Proof.
  apply (run_invariant (λ σ, socket (manager σ) = None)).
  intros e σ0 _ Hs. by rewrite fire_socket.
Qed.

Lemma closes_cons e es :
  closes (e :: es) = (if is_Closed e then 1 else 0) + closes es.
Proof. unfold closes. cbn. destruct (is_Closed e); cbn; lia. Qed.

Lemma closes_nonneg es : 0 ≤ closes es.
Proof. unfold closes. lia. Qed.

(** Without an open in between, the counter counts the closes, up to the
    maximum. *)
Lemma attempts_without_open es σ σ' :
  run env es σ = Some σ' →
  forallb (λ e, negb (is_Opened e)) es = true →
  0 ≤ reconnectAttempts (manager σ) ≤ maxReconnectAttempts →
  reconnectAttempts (manager σ') =
  Z.min (reconnectAttempts (manager σ) + closes es) maxReconnectAttempts.
Proof.
  revert σ. induction es as [|e es IH]; intros σ Hrun Hno Ha.
  - cbn in Hrun. simplify_eq. unfold closes. cbn. lia.
  - apply run_cons in Hrun as [_ Hrun]. cbn in Hno.
    apply andb_true_iff in Hno as [He Hno].
    pose proof (fire_reconnectAttempts env e σ) as Hstep.
    pose proof (closes_nonneg es).
    rewrite closes_cons, (IH _ Hrun Hno); unfold maxReconnectAttempts in *;
      destruct e; try done; cbn in Hstep |- *;
      try case_bool_decide; lia.
Qed.

(** Without a close in between, the counter stays where an open left it. *)
Lemma attempts_without_close es σ σ' :
  run env es σ = Some σ' →
  forallb (λ e, negb (is_Closed e)) es = true →
  reconnectAttempts (manager σ) = 0 →
  reconnectAttempts (manager σ') = 0.
Proof.
  revert σ. induction es as [|e es IH]; intros σ Hrun Hno Ha.
  - cbn in Hrun. by simplify_eq.
  - apply run_cons in Hrun as [_ Hrun]. cbn in Hno.
    apply andb_true_iff in Hno as [He Hno].
    apply (IH _ Hrun Hno). rewrite fire_reconnectAttempts. by destruct e.
Qed.

(** What a close schedules, by the value of the counter. *)
Lemma close_schedules w σ :
  let a := reconnectAttempts (manager σ) in
  let σ' := fire env (Closed w) σ in
  (a < maxReconnectAttempts →
     scheduled (since σ σ') = [(Reconnect, reconnectDelay * (a + 1))]
     ∧ timers σ' = timers σ ++ [(now σ + reconnectDelay * (a + 1), Reconnect)]
     ∧ reconnectAttempts (manager σ') = a + 1)
  ∧ (maxReconnectAttempts ≤ a →
     scheduled (since σ σ') = [] ∧ timers σ' = timers σ
     ∧ reconnectAttempts (manager σ') = a).
Proof.
  cbn zeta. rewrite fire_Closed. cbn zeta.
  split; intros Ha; case_bool_decide; try lia;
    (erewrite since_ext by (cbn; reflexivity)); done.
Qed.

End Runs.

(** ** The registry stays well formed *)

Lemma registry_ok_frame σ σ' :
  arrays σ' = arrays σ → listeners (manager σ') = listeners (manager σ) →
  registry_ok σ → registry_ok σ'.
Proof. unfold registry_ok. by intros -> ->. Qed.

Lemma registry_ok_cleared σ σ' :
  arrays σ' = arrays σ → listeners (manager σ') = ∅ → registry_ok σ'.
Proof.
  unfold registry_ok. intros _ ->. split.
  - intros t a. by rewrite lookup_empty.
  - intros t t' a. by rewrite lookup_empty.
Qed.

Lemma registry_ok_created loc : registry_ok (created loc).
Proof. by apply (registry_ok_cleared (created loc)). Qed.

Lemma perform_registry_ok act σ : registry_ok σ → registry_ok (perform act σ).2.
Proof.
  intros Hok. destruct act as [t cb|t cb|m| |]; cbn [perform].
  - by apply registry_ok_on.
  - by apply registry_ok_off.
  - apply (registry_ok_frame σ); [..|done];
      unfold send; unfold_M; by repeat case_match.
  - apply (registry_ok_frame σ); [..|done];
      unfold connect, connectWebSocket; unfold_M; by repeat case_match.
  - apply (registry_ok_cleared σ);
      unfold disconnect; unfold_M; destruct (ws (manager σ)); cbn;
      by repeat case_match.
Qed.

Section Wellformed.
Context (pg : Page).

Lemma fire_registry_ok e σ : registry_ok σ → registry_ok (fire pg e σ).
Proof.
  intros Hok. destruct e as [| |t cb|t cb|m|w|w data|w|w|i|d].
  - apply (perform_registry_ok DoConnect σ Hok).
  - apply (perform_registry_ok DoDisconnect σ Hok).
  - apply (perform_registry_ok (DoOn t cb) σ Hok).
  - apply (perform_registry_ok (DoOff t cb) σ Hok).
  - apply (perform_registry_ok (DoSend m) σ Hok).
  - apply (registry_ok_frame σ); [..|done];
      unfold_handlers; unfold_M; by repeat case_match.
  - apply fire_Message_preserved; [done| |done].
    intros act σ'. apply perform_registry_ok.
  - done.
  - apply (registry_ok_frame σ); [..|done];
      unfold_handlers; unfold_M; by repeat case_match.
  - apply (registry_ok_frame σ); [..|done];
      unfold_handlers; unfold_M; by repeat case_match.
  - done.
Qed.

(** Every world a run reaches from start-up has a well-formed registry. *)
Lemma run_registry_ok es σ σ' :
  registry_ok σ → run pg es σ = Some σ' → registry_ok σ'.
Proof.
  intros Hok Hrun. eapply (run_invariant pg registry_ok); [|exact Hrun|done].
  intros e σ0 _. apply fire_registry_ok.
Qed.

Lemma reachable_registry_ok loc es σ :
  run pg es (created loc) = Some σ → registry_ok σ.
Proof. apply run_registry_ok, registry_ok_created. Qed.


End Wellformed.

(** Callbacks that keep away from the manager disturb no dispatch. *)
Lemma passive_undisturbed (env : Host) message t σ : undisturbed env message t σ.
Proof. intros a k cb _ _. constructor. Qed.

Section Dispatch.
Context (env : Host).

Lemma delivered_calls t v l h :
  calls (delivered env t v l h) = map (λ cb, (cb, v)) l.
Proof.
  revert h. induction l as [|cb l IH]; intros h; [done|].
  cbn [delivered]. rewrite calls_app, IH.
  by destruct (listener_throws env cb v h).
Qed.

Lemma delivered_app t v l1 l2 h :
  delivered env t v (l1 ++ l2) h =
  delivered env t v l1 h ++ delivered env t v l2 (h ++ delivered env t v l1 h).
Proof.
  revert h. induction l1 as [|cb l1 IH]; intros h.
  - by rewrite app_nil_r.
  - cbn [delivered app]. rewrite IH, <- !app_assoc. done.
Qed.

Lemma delivered_local t v l h : Forall (λ p, local p.2) (delivered env t v l h).
Proof.
  revert h. induction l as [|cb l IH]; intros h; [constructor|].
  cbn [delivered]. apply Forall_app. split; [|apply IH].
  destruct (listener_throws env cb v h); repeat constructor.
Qed.

Lemma notify_unfold message d cb σ :
  get_prop message "data" = inr d →
  notify env message cb σ =
  (Ok tt,
   set_trace (trace σ ++ (now σ, Call cb (or_else d message)) ::
     match listener_throws env cb (or_else d message) (trace σ) with
     | Some e => [(now σ, Console Error "Error in WebSocket listener:" (ArgError e))]
     | None => []
     end) σ).
Proof.
  intros Hd. unfold notify, call. rewrite Hd. unfold_M.
  destruct (listener_throws env cb (or_else d message) (trace σ)); cbn; [|done].
  by rewrite <- app_assoc.
Qed.

Lemma forEach_from_notify message d a l k n σ :
  get_prop message "data" = inr d →
  arrays σ !! a = Some l → (k + n = length l)%nat →
  forEach_from a k n (notify env message) σ
  = (Ok tt, set_trace (trace σ ++
              delivered env (now σ) (or_else d message) (drop k l) (trace σ)) σ).
Proof.
  intros Hd. revert k σ. induction n as [|n IH]; intros k σ Ha Hk.
  - cbn. rewrite drop_ge by lia. cbn. by rewrite app_nil_r, set_trace_same.
  - destruct (lookup_lt_is_Some_2 l k) as [cb Hcb]; [lia|].
    rewrite (drop_S _ _ _ Hcb).
    cbn [forEach_from delivered]. unfold bind at 1, gets at 1.
    rewrite Ha. cbn [mbind option_bind]. rewrite Hcb.
    unfold bind at 1. rewrite (notify_unfold _ _ _ _ Hd).
    rewrite IH by (done || lia). cbn.
    by rewrite <- !app_assoc.
Qed.

(** The loop of [handleMessage] over the listeners of a non-null envelope,
    when the callbacks keep away from the manager: the array stays as it is
    and every element is visited. *)
Lemma forEach_notify message d a σ :
  get_prop message "data" = inr d →
  forEach a (notify env message) σ
  = (Ok tt, set_trace (trace σ ++
              delivered env (now σ) (or_else d message)
                (default [] (arrays σ !! a)) (trace σ)) σ).
Proof.
  intros Hd. unfold forEach, bind at 1, gets at 1.
  destruct (arrays σ !! a) as [l|] eqn:Ha; cbn [default from_option id]; cbv beta.
  - rewrite (forEach_from_notify _ d a l 0 (length l) σ Hd Ha) by lia.
    by rewrite drop_0.
  - cbn. by rewrite app_nil_r, set_trace_same.
Qed.

(** [handleMessage] on an envelope that is not [null]. *)
Lemma handleMessage_object message σ :
  message ≠ JNull →
  handleMessage env message σ =
  (Ok tt,
   set_trace (trace σ ++
     (now σ, Console Log "Received WebSocket message:" (ArgValue message)) ::
     delivered env (now σ) (payload message)
       (match topic_of message with Some t => registered σ t | None => [] end)
       (trace σ ++
         [(now σ, Console Log "Received WebSocket message:" (ArgValue message))])) σ).
Proof.
  intros Hnull.
  assert (∃ ty d, get_prop message "type" = inr ty ∧ get_prop message "data" = inr d)
    as (ty & d & Hty & Hd) by (destruct message; try done; eauto).
  unfold handleMessage, bind at 1, console_log, emit, modify.
  rewrite Hty. cbn [lift]. unfold bind at 1, ret at 1, bind at 1, gets at 1.
  unfold payload, topic_of, registered. rewrite Hty, Hd.
  assert (∀ σ1 : world, ret tt σ1 = (Ok tt, set_trace (trace σ1 ++ []) σ1)) as Hret
    by (intros σ1; unfold ret; by rewrite app_nil_r, set_trace_same).
  destruct ty as [[| | |t| |]|]; cbv beta iota;
    try (rewrite Hret; cbn; by rewrite <- app_assoc).
  cbn [manager set_trace].
  destruct (listeners (manager σ) !! t) as [a|]; cbv beta iota;
    [|rewrite Hret; cbn; by rewrite <- app_assoc].
  rewrite (forEach_notify _ d _ _ Hd). cbn. by rewrite <- app_assoc.
Qed.

(** Whatever arrives, [onmessage] returns normally and only adds console
    output and callback calls to the trace. *)
Lemma onmessage_unfold data σ :
  onmessage env data σ =
  match JSON_parse env data with
  | Some message =>
      match handleMessage env message σ with
      | (Ok a, σ') => (Ok a, σ')
      | (Raise e, σ') =>
          console_error "Failed to parse WebSocket message:" (ArgError e) σ'
      end
  | None =>
      console_error "Failed to parse WebSocket message:"
        (ArgError (SyntaxError data)) σ
  end.
Proof.
  unfold onmessage, try_catch, bind at 1. cbn [page_parse passive].
  by destruct (JSON_parse env data).
Qed.

Lemma onmessage_frame data σ :
  ∃ ext, onmessage env data σ = (Ok tt, set_trace (trace σ ++ ext) σ)
         ∧ Forall (λ p, local p.2) ext.
Proof.
  rewrite onmessage_unfold.
  destruct (JSON_parse env data) as [message|].
  - assert (message = JNull ∨ message ≠ JNull) as [->|Hnull]
      by (destruct message; auto).
    + rewrite handleMessage_null. unfold_M. rewrite <- app_assoc.
      eexists. split; [done|]. repeat constructor.
    + rewrite handleMessage_object by done.
      eexists. split; [done|]. constructor; [done|]. apply delivered_local.
  - unfold_M. eexists. split; [done|]. repeat constructor.
Qed.

Lemma fire_Message w data σ :
  ∃ ext, fire env (Message w data) σ = set_trace (trace σ ++ ext) σ
         ∧ Forall (λ p, local p.2) ext.
Proof.
  destruct (onmessage_frame data σ) as (ext & Heq & Hext).
  exists ext. split; [|done]. unfold fire, handler. by rewrite Heq.
Qed.

End Dispatch.

Section Passive.
Context (env : Host).

(** Dispatch among callbacks that keep away from the manager: what
    [handleMessage] calls. *)
Lemma dispatch_calls message σ :
  calls (since σ (handleMessage env message σ).2) =
  map (λ cb, (cb, payload message))
      (match topic_of message with Some t => registered σ t | None => [] end).
Proof.
  assert (message = JNull ∨ message ≠ JNull) as [->|Hnull]
    by (destruct message; auto).
  - rewrite handleMessage_null. cbn [snd]. by rewrite since_set_trace.
  - rewrite handleMessage_object by done. cbn [snd].
    rewrite since_set_trace. cbn. apply delivered_calls.
Qed.

Lemma handleMessage_frame message σ :
  ∃ ext, (handleMessage env message σ).2 = set_trace (trace σ ++ ext) σ.
Proof.
  assert (message = JNull ∨ message ≠ JNull) as [->|Hnull]
    by (destruct message; auto).
  - rewrite handleMessage_null. by eexists.
  - rewrite handleMessage_object by done. by eexists.
Qed.

End Passive.

(** ** Sockets that are closing or closed *)

Section Shut.
Context (pg : Page).

Lemma sent_on_other w w' t text tr :
  w' ≠ w → sent_on w (tr ++ [(t, WsSend w' text)]) = sent_on w tr.
Proof.
  intros Hne. rewrite sent_on_app. unfold sent_on at 2. cbn.
  rewrite bool_decide_eq_false_2 by done. apply app_nil_r.
Qed.

Lemma sent_on_skip w t e tr :
  (∀ text, e ≠ WsSend w text) → sent_on w (tr ++ [(t, e)]) = sent_on w tr.
Proof.
  intros Hne. rewrite sent_on_app. unfold sent_on at 2. cbn.
  destruct e; cbn; rewrite ?app_nil_r; try done.
  case_bool_decide; [subst; by edestruct Hne|]. apply app_nil_r.
Qed.

Lemma shut_not_open σ w : shut σ w → sockets σ !! w ≠ Some OPEN.
Proof. intros [H|H]; rewrite H; done. Qed.

Lemma shut_not_connecting σ w : shut σ w → sockets σ !! w ≠ Some CONNECTING.
Proof. intros [H|H]; rewrite H; done. Qed.

Lemma shut_insert (ss : list readyState) w w' st :
  ss !! w = Some CLOSING ∨ ss !! w = Some CLOSED →
  (w' = w → st = CLOSING ∨ st = CLOSED) →
  <[w' := st]> ss !! w = Some CLOSING ∨ <[w' := st]> ss !! w = Some CLOSED.
Proof.
  intros Hshut Hst. destruct (decide (w' = w)) as [->|Hne].
  - rewrite list_lookup_insert_eq by (destruct Hshut; by eapply lookup_lt_Some).
    destruct (Hst eq_refl); subst; auto.
  - by rewrite list_lookup_insert_ne.
Qed.

Lemma shut_app (ss l : list readyState) w :
  ss !! w = Some CLOSING ∨ ss !! w = Some CLOSED →
  (ss ++ l) !! w = Some CLOSING ∨ (ss ++ l) !! w = Some CLOSED.
Proof.
  intros Hshut.
  rewrite lookup_app_l by (destruct Hshut; by eapply lookup_lt_Some). done.
Qed.

Lemma open_not_shut σ w w' :
  shut σ w → default CLOSED (sockets σ !! w') = OPEN → w' ≠ w.
Proof. intros [H|H] Hopen ->; by rewrite H in Hopen. Qed.

(** A socket that is closing or closed stays so, and nothing more is sent
    on it, whoever calls the manager. *)
Lemma perform_shut act σ w :
  shut σ w →
  shut (perform act σ).2 w
  ∧ sent_on w (trace (perform act σ).2) = sent_on w (trace σ).
Proof.
  intros Hshut.
  pose proof (shut_not_open _ _ Hshut) as Hno.
  pose proof (shut_not_connecting _ _ Hshut) as Hnc.
  destruct act as [t cb|t cb|m| |]; unfold perform.
  all: unfold_handlers; unfold_M; repeat case_match; simplify_eq/=;
    try case_bool_decide; simplify_eq/=;
    (split;
     [ unfold shut in *; cbn;
       first [ done
             | apply shut_app; done
             | apply shut_insert; [done|intros ->; first [by auto|congruence]] ]
     | repeat first [ done
                    | rewrite sent_on_skip by done
                    | rewrite sent_on_other
                        by first [congruence|eapply open_not_shut; eassumption] ] ]).
Qed.

Lemma fire_shut e σ w :
  enabled σ e = true → shut σ w →
  shut (fire pg e σ) w ∧ sent_on w (trace (fire pg e σ)) = sent_on w (trace σ).
Proof.
  intros He Hshut.
  pose proof (shut_not_open _ _ Hshut) as Hno.
  pose proof (shut_not_connecting _ _ Hshut) as Hnc.
  destruct e as [| |t cb|t cb|m|w'|w' data|w'|w'|i|d].
  1: by apply (perform_shut DoConnect).
  1: by apply (perform_shut DoDisconnect).
  1: by apply (perform_shut (DoOn t cb)).
  1: by apply (perform_shut (DoOff t cb)).
  1: by apply (perform_shut (DoSend m)).
  2: { apply (fire_Message_preserved pg
                (λ σ', shut σ' w ∧ sent_on w (trace σ') = sent_on w (trace σ)));
         [| |done].
       - intros e σ0 Hloc [Hs Hsent]. split; [done|]. cbn.
         rewrite sent_on_skip; [done|]. intros text ->. done.
       - intros act σ0 [Hs Hsent].
         destruct (perform_shut act σ0 w Hs) as [? ->]. done. }
  all: cbn in He; try apply bool_decide_eq_true in He;
    unfold_handlers; unfold_M; repeat case_match; simplify_eq/=;
    try case_bool_decide; simplify_eq/=;
    (split;
     [ unfold shut in *; cbn;
       first [ done
             | apply shut_app; done
             | apply shut_insert; [done|intros ->; first [by auto|congruence]] ]
     | repeat first [ done
                    | rewrite sent_on_skip by done
                    | rewrite sent_on_other
                        by first [congruence|eapply open_not_shut; eassumption] ] ]).
Qed.

Lemma run_shut es σ σ' w :
  run pg es σ = Some σ' → shut σ w →
  shut σ' w ∧ sent_on w (trace σ') = sent_on w (trace σ).
Proof.
  revert σ. induction es as [|e es IH]; intros σ Hrun Hshut.
  - cbn in Hrun. by simplify_eq.
  - apply run_cons in Hrun as [He Hrun].
    destruct (fire_shut e σ w He Hshut) as [Hshut' Hsent].
    destruct (IH _ Hrun Hshut') as [? ->]. done.
Qed.

(** The trace only grows. *)
Lemma perform_extends act σ : ∃ ext, trace (perform act σ).2 = trace σ ++ ext.
Proof.
  destruct act as [t cb|t cb|m| |]; unfold perform.
  all: unfold_handlers; unfold_M; repeat case_match; simplify_eq/=;
    try case_bool_decide; simplify_eq/=; rewrite <- ?app_assoc;
    first [by eexists | by exists []; rewrite app_nil_r].
Qed.

Lemma fire_extends e σ : ∃ ext, trace (fire pg e σ) = trace σ ++ ext.
Proof.
  destruct e as [| |t cb|t cb|m|w'|w' data|w'|w'|i|d].
  1: apply (perform_extends DoConnect).
  1: apply (perform_extends DoDisconnect).
  1: apply (perform_extends (DoOn t cb)).
  1: apply (perform_extends (DoOff t cb)).
  1: apply (perform_extends (DoSend m)).
  2: { apply (fire_Message_preserved pg (λ σ', ∃ ext, trace σ' = trace σ ++ ext)).
       - intros e σ0 _ [ext Hext]. exists (ext ++ [(now σ0, e)]). cbn.
         by rewrite Hext, app_assoc.
       - intros act σ0 [ext Hext]. destruct (perform_extends act σ0) as [ext' ->].
         exists (ext ++ ext'). by rewrite Hext, app_assoc.
       - exists []. by rewrite app_nil_r. }
  all: unfold_handlers; unfold_M; repeat case_match; simplify_eq/=;
    try case_bool_decide; simplify_eq/=; rewrite <- ?app_assoc;
    first [by eexists | by exists []; rewrite app_nil_r].
Qed.

Lemma run_extends es σ σ' :
  run pg es σ = Some σ' → ∃ ext, trace σ' = trace σ ++ ext.
Proof.
  revert σ. induction es as [|e es IH]; intros σ Hrun.
  - cbn in Hrun. simplify_eq. exists []. by rewrite app_nil_r.
  - apply run_cons in Hrun as [He Hrun].
    destruct (fire_extends e σ) as [ext1 H1].
    destruct (IH _ Hrun) as [ext2 H2].
    exists (ext1 ++ ext2). by rewrite H2, H1, app_assoc.
Qed.

(** After the socket started closing, a run sends nothing on it. *)
Lemma nothing_sent_when_shut es σ σ' w :
  run pg es σ = Some σ' → shut σ w → sent_on w (since σ σ') = [].
Proof.
  intros Hrun Hshut.
  destruct (run_extends _ _ _ Hrun) as [ext Hext].
  destruct (run_shut _ _ _ _ Hrun Hshut) as [_ Hsent].
  rewrite (since_ext _ _ _ Hext).
  rewrite Hext, sent_on_app in Hsent.
  rewrite <- (app_nil_r (sent_on w (trace σ))) in Hsent at 2.
  by apply app_inv_head in Hsent.
Qed.

End Shut.

(** ** The cadence over whole runs *)

Section Cadence.
Context (pg : Page).

Lemma probes_snoc t0 n :
  probes t0 (S n) = probes t0 n ++ [(t0 + 30000 * Z.of_nat n, ping_wire)].
Proof.
  revert t0. induction n as [|n IH]; intros t0.
  - cbn [probes app]. do 2 f_equal. lia.
  - change (probes t0 (S (S n))) with ((t0, ping_wire) :: probes (t0 + 30000) (S n)).
    rewrite IH. cbn [probes app].
    replace (t0 + 30000 + 30000 * Z.of_nat n) with (t0 + 30000 * Z.of_nat (S n)) by lia.
    done.
Qed.

Lemma sent_on_same w t text tr :
  sent_on w (tr ++ [(t, WsSend w text)]) = sent_on w tr ++ [(t, text)].
Proof.
  rewrite sent_on_app. unfold sent_on at 2. cbn.
  by rewrite bool_decide_eq_true_2.
Qed.

Lemma sent_on_cons w p tr :
  sent_on w (p :: tr) =
  match p.2 with
  | WsSend w' text => if bool_decide (w' = w) then [(p.1, text)] else []
  | _ => []
  end ++ sent_on w tr.
Proof.
  unfold sent_on. destruct p as [t []]; cbn; try done. by case_bool_decide.
Qed.

(** What an open, and a heartbeat on an open socket, add to what was sent. *)
Lemma sent_on_opened w t msg tr :
  sent_on w (tr ++ [(t, Console Log msg NoArg); (t, WsSend w ping_wire);
                    (t, SetTimeout (Heartbeat w) 30000)])
  = sent_on w tr ++ [(t, ping_wire)].
Proof.
  rewrite sent_on_app, !sent_on_cons. cbn [fst snd]. cbv beta iota.
  by rewrite bool_decide_eq_true_2.
Qed.

Lemma sent_on_beat w t tr :
  sent_on w (tr ++ [(t, WsSend w ping_wire); (t, SetTimeout (Heartbeat w) 30000)])
  = sent_on w tr ++ [(t, ping_wire)].
Proof.
  rewrite sent_on_app, !sent_on_cons. cbn [fst snd]. cbv beta iota.
  by rewrite bool_decide_eq_true_2.
Qed.

Lemma heartbeats_due_app w ts1 ts2 :
  heartbeats_due w (ts1 ++ ts2) = heartbeats_due w ts1 ++ heartbeats_due w ts2.
Proof. apply omap_app. Qed.

Lemma heartbeats_due_other w ts d t :
  t ≠ Heartbeat w → heartbeats_due w (ts ++ [(d, t)]) = heartbeats_due w ts.
Proof.
  intros Hne. rewrite heartbeats_due_app. unfold heartbeats_due at 2. cbn.
  destruct t as [|w']; cbn; rewrite ?app_nil_r; [done|].
  rewrite bool_decide_eq_false_2 by congruence. apply app_nil_r.
Qed.

Lemma heartbeats_due_same w ts d :
  heartbeats_due w (ts ++ [(d, Heartbeat w)]) = heartbeats_due w ts ++ [d].
Proof.
  rewrite heartbeats_due_app. unfold heartbeats_due at 2. cbn.
  by rewrite bool_decide_eq_true_2.
Qed.

Lemma heartbeats_due_delete_other w ts i d t :
  ts !! i = Some (d, t) → t ≠ Heartbeat w →
  heartbeats_due w (delete i ts) = heartbeats_due w ts.
Proof.
  unfold heartbeats_due.
  revert i. induction ts as [|[d' t'] ts IH]; intros i Hi Hne; [done|].
  destruct i as [|i]; cbn in Hi |- *.
  - simplify_eq. destruct t as [|w']; [done|].
    by rewrite bool_decide_eq_false_2 by congruence.
  - specialize (IH i Hi Hne). destruct t' as [|w']; cbn; [done|].
    case_bool_decide; [by f_equal|done].
Qed.

Lemma heartbeats_due_delete_same w ts i d :
  ts !! i = Some (d, Heartbeat w) →
  ∃ l1 l2, heartbeats_due w ts = l1 ++ d :: l2
           ∧ heartbeats_due w (delete i ts) = l1 ++ l2.
Proof.
  unfold heartbeats_due.
  revert i. induction ts as [|[d' t'] ts IH]; intros i Hi; [done|].
  destruct i as [|i]; cbn in Hi |- *.
  - simplify_eq. rewrite bool_decide_eq_true_2 by done.
    eexists [], _. split; reflexivity.
  - destruct (IH i Hi) as (l1 & l2 & Hts & Hdel).
    destruct t' as [|w']; cbn; [by exists l1, l2|].
    case_bool_decide; [|by exists l1, l2].
    exists (d' :: l1), l2. cbn. split; by f_equal.
Qed.

Lemma ping_text : JSON_stringify ping = ping_wire.
Proof. reflexivity. Qed.

Lemma sent_on_nosend w tr ext :
  Forall (λ p, ∀ text, p.2 ≠ WsSend w text) ext → sent_on w (tr ++ ext) = sent_on w tr.
Proof.
  intros Hext. rewrite sent_on_app.
  assert (sent_on w ext = []) as ->; [|apply app_nil_r].
  unfold sent_on. induction Hext as [|[t e] ext He _ IH]; [done|].
  cbn. destruct e; try done. case_bool_decide; [subst; by edestruct He|done].
Qed.

Lemma lookup_snoc_cases (l : list readyState) x (w : wsref) :
  (l ++ [x]) !! w = l !! w ∨ (l !! w = None ∧ (l ++ [x]) !! w = Some x).
Proof.
  destruct (decide (w < length l)%nat) as [Hlt|Hge].
  - left. by apply lookup_app_l.
  - assert (l !! w = None) as Hnone by (apply lookup_ge_None; lia).
    destruct (decide (w = length l)) as [->|Hne].
    + right. split; [done|]. by rewrite list_lookup_middle.
    + left. rewrite Hnone. apply lookup_ge_None. rewrite length_app. cbn. lia.
Qed.

Lemma cadence_at_close st st' sent due :
  cadence_at (Some st) sent due → st' = CLOSING ∨ st' = CLOSED →
  cadence_at (Some st') sent due.
Proof.
  intros Hc [-> | ->]; destruct st; cbn in *.
  all: try (destruct Hc as [-> ->]; by exists 0, 0%nat; auto).
  all: try (destruct Hc as (t0 & n & -> & ->); exists t0, (S n); auto).
  all: done.
Qed.

Lemma cadence_at_open sent due t :
  cadence_at (Some CONNECTING) sent due →
  cadence_at (Some OPEN) (sent ++ [(t, ping_wire)]) (due ++ [t + 30000]).
Proof.
  intros [-> ->]. exists t, 0%nat. cbn. split; [done|]. do 2 f_equal.
Qed.

Lemma cadence_at_beat l1 d l2 sent :
  cadence_at (Some OPEN) sent (l1 ++ d :: l2) →
  cadence_at (Some OPEN) (sent ++ [(d, ping_wire)]) ((l1 ++ l2) ++ [d + 30000]).
Proof.
  intros (t0 & n & -> & Hdue).
  assert (l1 = [] ∧ l2 = [] ∧ d = t0 + 30000 * Z.of_nat (S n)) as (-> & -> & ->).
  { destruct l1 as [|x [|y l1]]; destruct l2; simplify_eq/=; done. }
  exists t0, (S n). split; [by rewrite (probes_snoc t0 (S n))|].
  cbn [app]. f_equal. lia.
Qed.

Lemma cadence_at_stale st l1 d l2 sent :
  st ≠ Some OPEN →
  cadence_at st sent (l1 ++ d :: l2) → cadence_at st sent (l1 ++ l2).
Proof.
  intros Hst Hc. destruct st as [[]|]; cbn in *; try done.
  all: try (destruct Hc as [_ Hdue]; by destruct l1).
  all: destruct Hc as (t0 & n & -> & [Hdue|Hdue]); [by destruct l1|];
    exists t0, n; split; [done|]; left;
    destruct l1 as [|x [|y l1]]; destruct l2; simplify_eq/=; done.
Qed.

Lemma cadence_connect σ w :
  socket (manager σ) = None → cadence σ w → cadence (fire pg CallConnect σ) w.
Proof.
  intros Hs Hc. rewrite fire_CallConnect by done. unfold cadence in *. proj.
  rewrite sent_on_nosend by (repeat constructor; done).
  destruct (lookup_snoc_cases (sockets σ) CONNECTING w) as [-> | [Hnone ->]];
    [done|].
  by rewrite Hnone in Hc.
Qed.

(** A call of a public method other than [send] keeps the cadence of every
    socket. *)
Lemma perform_cadence act σ w :
  match act with DoSend _ => False | _ => True end →
  socket (manager σ) = None → cadence σ w → cadence (perform act σ).2 w.
Proof.
  intros Hact Hs Hc. destruct act as [t cb|t cb|m| |]; [| |done| |]; cbn [perform].
  - rewrite on_unfold. cbn [snd].
    by destruct (listeners (manager σ) !! t).
  - rewrite off_unfold. cbn [snd].
    destruct (listeners (manager σ) !! t); [|done]. by case_bool_decide.
  - by apply cadence_connect.
  - change (disconnect σ).2 with (fire pg CallDisconnect σ).
    rewrite fire_CallDisconnect. destruct (ws (manager σ)) as [w'|]; [|done].
    unfold cadence in *. proj. rewrite sent_on_skip by done.
    destruct (sockets σ !! w') as [st|] eqn:Hw'; [|done].
    destruct (decide (w' = w)) as [->|Hne].
    + rewrite Hw' in Hc.
      destruct st; cbv beta iota; rewrite ?Hw'; try done;
        (rewrite list_lookup_insert_eq by (by eapply lookup_lt_Some));
        eapply cadence_at_close; eauto.
    + destruct st; cbv beta iota; try done; by rewrite list_lookup_insert_ne.
Qed.

(** One event keeps the cadence of every socket, provided neither a
    collaborator nor a callback sends on the channel. *)
Lemma fire_cadence e σ w :
  never_sends pg →
  enabled σ e = true → is_CallSend e = false → socket (manager σ) = None →
  cadence σ w → cadence (fire pg e σ) w.
Proof.
  intros Hpg He Hsend Hs Hc.
  destruct e as [| |t cb|t cb|m|w'|w' data|w'|w'|i|d]; try done.
  - by apply cadence_connect.
  - by apply (perform_cadence DoDisconnect).
  - by apply (perform_cadence (DoOn t cb)).
  - by apply (perform_cadence (DoOff t cb)).
  - cbn in He. apply bool_decide_eq_true in He. rewrite fire_Opened by done.
    unfold cadence in *. proj.
    destruct (decide (w' = w)) as [->|Hne].
    + rewrite list_lookup_insert_eq by (by eapply lookup_lt_Some).
      rewrite He in Hc. rewrite ping_text, sent_on_opened.
      rewrite heartbeats_due_same. by apply cadence_at_open.
    + rewrite list_lookup_insert_ne by done.
      rewrite sent_on_nosend
        by (repeat (constructor; [intros ? E; cbn in E; congruence|]); constructor).
      rewrite heartbeats_due_other by congruence. done.
  - assert (socket (manager (fire pg (Message w' data) σ)) = None
            ∧ cadence (fire pg (Message w' data) σ) w) as [_ H]; [|done].
    apply (fire_Message_preserved_among pg
             (λ a, match a with DoSend _ => False | _ => True end)
             (λ σ', socket (manager σ') = None ∧ cadence σ' w)); [done| | |done].
    + intros e σ0 Hloc [Hs0 Hc0]. split; [done|].
      unfold cadence in *. cbn. rewrite sent_on_skip; [done|].
      intros text ->. done.
    + intros act σ0 Hact [Hs0 Hc0]. split.
      * by rewrite perform_socket.
      * by apply perform_cadence.
  - unfold cadence in *. unfold_handlers. unfold_M. by rewrite sent_on_skip.
  - cbn in He. destruct (sockets σ !! w') as [st|] eqn:Hw'; [|done].
    rewrite fire_Closed. cbn zeta. unfold cadence in *.
    assert (cadence_at (<[w' := CLOSED]> (sockets σ) !! w) (sent_on w (trace σ))
              (heartbeats_due w (timers σ))) as Hc'.
    { destruct (decide (w' = w)) as [->|Hne].
      - rewrite list_lookup_insert_eq by (by eapply lookup_lt_Some).
        rewrite Hw' in Hc. eapply cadence_at_close; eauto.
      - by rewrite list_lookup_insert_ne. }
    clear He. case_bool_decide; proj;
      rewrite sent_on_nosend by (repeat constructor; done);
      rewrite ?heartbeats_due_other by done; done.
  - cbn in He. destruct (timers σ !! i) as [[due [|w']]|] eqn:Hi; [| |done];
      apply bool_decide_eq_true in He; subst due.
    + rewrite (fire_Reconnect _ _ _ _ Hi). apply cadence_connect; [done|].
      unfold cadence in *. proj.
      by rewrite (heartbeats_due_delete_other _ _ _ _ _ Hi).
    + rewrite (fire_Heartbeat _ _ _ _ _ Hi). unfold cadence in *.
      destruct (decide (w' = w)) as [->|Hne].
      * destruct (heartbeats_due_delete_same _ _ _ _ Hi) as (l1 & l2 & Hdue & Hdel).
        rewrite Hdue in Hc. case_bool_decide as Hopen; proj.
        -- rewrite ping_text, sent_on_beat.
           rewrite heartbeats_due_same, Hdel.
           rewrite Hopen in Hc |- *. by apply cadence_at_beat.
        -- rewrite Hdel. by eapply cadence_at_stale.
      * rewrite <- (heartbeats_due_delete_other w _ _ _ _ Hi) in Hc by congruence.
        case_bool_decide; proj; [|done].
        rewrite sent_on_nosend
        by (repeat (constructor; [intros ? E; cbn in E; congruence|]); constructor).
        by rewrite heartbeats_due_other by congruence.
Qed.

(** From start-up on, and as long as neither a collaborator nor a callback
    sends on the channel, what was sent on a socket is a sequence of probes
    30,000 ms apart. *)
Lemma run_cadence loc es σ w :
  never_sends pg →
  run pg es (created loc) = Some σ →
  forallb (λ e, negb (is_CallSend e)) es = true →
  socket (manager σ) = None ∧ cadence σ w.
Proof.
  intros Hpg Hrun Hno.
  assert (socket (manager (created loc)) = None ∧ cadence (created loc) w) as Hinit
    by done.
  revert Hinit Hrun Hno. generalize (created loc).
  induction es as [|e es IH]; intros σ0 [Hs Hc] Hrun Hno.
  - cbn in Hrun. by simplify_eq.
  - apply run_cons in Hrun as [He Hrun]. cbn in Hno.
    apply andb_true_iff in Hno as [Hne Hno].
    apply (IH (fire pg e σ0)); [|done..].
    split; [by rewrite fire_socket|].
    apply fire_cadence; try done. by destruct (is_CallSend e).
Qed.

Lemma cadence_probes σ w : cadence σ w → ∃ t0 n, sent_on w (trace σ) = probes t0 n.
Proof.
  unfold cadence, cadence_at. intros Hc.
  destruct (sockets σ !! w) as [[]|].
  - destruct Hc as [-> _]. by exists 0, 0%nat.
  - destruct Hc as (t0 & n & -> & _). by exists t0, (S n).
  - destruct Hc as (t0 & n & -> & _). by exists t0, n.
  - destruct Hc as (t0 & n & -> & _). by exists t0, n.
  - destruct Hc as [-> _]. by exists 0, 0%nat.
Qed.

Lemma probes_on_time loc es σ w :
  never_sends pg →
  run pg es (created loc) = Some σ →
  forallb (λ e, negb (is_CallSend e)) es = true →
  ∃ t0 n, sent_on w (trace σ) = probes t0 n.
Proof.
  intros Hpg Hrun Hno. apply cadence_probes.
  by destruct (run_cadence loc es σ w Hpg Hrun Hno).
Qed.

End Cadence.

(** Callbacks that keep away from the manager do not send. *)
Lemma passive_never_sends (env : Host) : never_sends env.
Proof. intros cb v σ. constructor. Qed.


(** * The claims *)

(** ** C1: connect() while connected *)

(** In every state a run can reach, [connect] goes on to create a transport:
    its guard reads field [socket], which is never assigned. *)
Lemma connect_always_creates env loc es σ :
  run env es (created loc) = Some σ →
  let σ' := fire env CallConnect σ in
  created_sockets (since σ σ') = [length (sockets σ)]
  ∧ ws (manager σ') = Some (length (sockets σ))
  ∧ sockets σ' = sockets σ ++ [CONNECTING].
Proof.
  intros Hrun. cbn zeta.
  rewrite fire_CallConnect by (by eapply run_socket_null).
  by erewrite since_ext by (cbn; reflexivity).
Qed.

(** C1: the claim says that [connect()] called while the connection is
    Connected creates no second transport and changes nothing. The code does
    otherwise: after start-up and the opening of transport 0, the manager is
    connected, and a call of [connect()] creates transport 1 and stores it in
    place of transport 0, which stays open. *)
Theorem connect_while_connected_creates_second_transport :
  let σ := fire quiet (Opened 0%nat) (boot quiet here) in
  let σ' := fire quiet CallConnect σ in
  isConnected σ = true
  ∧ ws (manager σ) = Some 0%nat
  ∧ created_sockets (since σ σ') = [1%nat]
  ∧ ws (manager σ') = Some 1%nat
  ∧ sockets σ' = [OPEN; CONNECTING]
  ∧ isConnected σ' = false.
Proof. vm_compute. repeat split; reflexivity. Qed.

(** ** C2: disconnect() *)

(** C2, as stated, fails: after start-up and an open, [disconnect()] closes
    transport 0; its close event then schedules a retry after 1000 ms, and
    when that is due a new transport is created. *)
Lemma disconnect_then_close_schedules_retry :
  let σ := fire quiet CallDisconnect (fire quiet (Opened 0%nat) (boot quiet here)) in
  since (fire quiet (Opened 0%nat) (boot quiet here)) σ = [(0, WsClose 0%nat)]
  ∧ (λ σ', (scheduled (since σ σ'), created_sockets (since σ σ')))
      <$> run quiet [Closed 0%nat; Elapse 1000; Timeout 1%nat] σ
    = Some ([(Reconnect, 1000)], [1%nat]).
Proof. vm_compute. split; reflexivity. Qed.

(** C2, amended: [disconnect()] closes the stored transport if there is one
    (an open or connecting transport starts closing), empties the registry,
    and itself schedules nothing and leaves the attempt counter alone; the
    close event that follows is handled like any other: it schedules a retry
    exactly when the counter is below 5. *)
Theorem disconnect_closes_and_clears env σ :
  let σ' := fire env CallDisconnect σ in
  listeners (manager σ') = ∅
  ∧ since σ σ' = match ws (manager σ) with
                 | Some w => [(now σ, WsClose w)]
                 | None => []
                 end
  ∧ (∀ w, ws (manager σ) = Some w →
          sockets σ !! w = Some OPEN ∨ sockets σ !! w = Some CONNECTING →
          sockets σ' !! w = Some CLOSING)
  ∧ timers σ' = timers σ
  ∧ reconnectAttempts (manager σ') = reconnectAttempts (manager σ)
  ∧ ∀ w, scheduled (since σ' (fire env (Closed w) σ')) =
         if bool_decide (reconnectAttempts (manager σ) < 5)
         then [(Reconnect, 1000 * (reconnectAttempts (manager σ) + 1))]
         else [].
Proof.
  cbn zeta.
  assert (reconnectAttempts (manager (fire env CallDisconnect σ))
          = reconnectAttempts (manager σ)) as Hsame
    by (by rewrite fire_reconnectAttempts).
  split_and!; try done.
  - rewrite fire_CallDisconnect. by destruct (ws (manager σ)).
  - rewrite fire_CallDisconnect. destruct (ws (manager σ)) as [w|].
    + by erewrite since_ext by (cbn; reflexivity).
    + apply since_ext. cbn. by rewrite app_nil_r.
  - intros w Hw Hst. rewrite fire_CallDisconnect, Hw. cbn.
    assert (w < length (sockets σ))%nat
      by (destruct Hst; by eapply lookup_lt_Some).
    destruct Hst as [-> | ->]; by rewrite list_lookup_insert_eq.
  - rewrite fire_CallDisconnect. by destruct (ws (manager σ)).
  - intros w.
    destruct (close_schedules env w (fire env CallDisconnect σ)) as [Hlt Hge].
    rewrite Hsame in Hlt, Hge. unfold maxReconnectAttempts, reconnectDelay in *.
    case_bool_decide.
    + by destruct Hlt as (-> & _).
    + destruct Hge as (-> & _); [lia|done].
Qed.

Lemma disconnect_closes_and_clears_witness :
  let σ := fire quiet (Opened 0%nat) (boot quiet here) in
  sockets (fire quiet CallDisconnect σ) !! 0%nat = Some CLOSING.
Proof.
  intros σ.
  destruct (disconnect_closes_and_clears quiet σ) as (_ & _ & Hclose & _).
  apply Hclose; [vm_compute; reflexivity|]. left. vm_compute. reflexivity.
Defined.

(** ** C3: the backoff sequence *)

(** C3: from a manager whose counter is 0, and with no open in between, the
    k-th close schedules a retry after 1000*k ms for k = 1..5; the 6th close
    (and every later one) schedules nothing. *)
Theorem backoff_sequence env es σ0 σ w k :
  reconnectAttempts (manager σ0) = 0 →
  run env es σ0 = Some σ →
  forallb (λ e, negb (is_Opened e)) es = true →
  closes es = k - 1 →
  enabled σ (Closed w) = true →
  let σ' := fire env (Closed w) σ in
  (1 ≤ k ≤ 5 →
     scheduled (since σ σ') = [(Reconnect, 1000 * k)]
     ∧ timers σ' = timers σ ++ [(now σ + 1000 * k, Reconnect)])
  ∧ (6 ≤ k → scheduled (since σ σ') = [] ∧ timers σ' = timers σ).
Proof.
  intros H0 Hrun Hno Hk _. cbn zeta.
  pose proof (attempts_without_open env es σ0 σ Hrun Hno) as Ha.
  rewrite H0, Hk in Ha. unfold maxReconnectAttempts in Ha.
  destruct (close_schedules env w σ) as [Hlt Hge].
  unfold maxReconnectAttempts, reconnectDelay in *.
  split; intros Hrange.
  - rewrite Ha in Hlt by lia.
    replace (Z.min (0 + (k - 1)) 5 + 1) with k in Hlt by lia.
    destruct Hlt as (? & ? & _); [lia|done].
  - rewrite Ha in Hge by lia. destruct Hge as (? & ? & _); [lia|done].
Qed.

Lemma backoff_sequence_witness :
  let σ := default (created here) (run quiet (outages 2) (created here)) in
  scheduled (since σ (fire quiet (Closed 2%nat) σ)) = [(Reconnect, 3000)].
Proof.
  intros σ.
  apply (backoff_sequence quiet (outages 2) (created here) σ 2%nat 3);
    [vm_compute; reflexivity .. | lia].
Defined.

(** The whole sequence of C3 on the run of six failed connections. *)
Example backoff_run :
  scheduled <$> (trace <$> run quiet (outages 5 ++ [Closed 5%nat]) (created here))
  = Some [(Reconnect, 1000); (Reconnect, 2000); (Reconnect, 3000);
          (Reconnect, 4000); (Reconnect, 5000)].
Proof. vm_compute. reflexivity. Qed.

(** ** C4: reset on success *)

(** C4: an open sets the counter to 0 whatever it was, and the next close
    after it schedules a retry after 1000 ms. *)
Theorem reset_on_success env σ w es σ1 w' :
  enabled σ (Opened w) = true →
  run env es (fire env (Opened w) σ) = Some σ1 →
  forallb (λ e, negb (is_Closed e)) es = true →
  enabled σ1 (Closed w') = true →
  let σ2 := fire env (Closed w') σ1 in
  reconnectAttempts (manager (fire env (Opened w) σ)) = 0
  ∧ scheduled (since σ1 σ2) = [(Reconnect, 1000)]
  ∧ timers σ2 = timers σ1 ++ [(now σ1 + 1000, Reconnect)]
  ∧ reconnectAttempts (manager σ2) = 1.
Proof.
  intros _ Hrun Hno _. cbn zeta.
  assert (reconnectAttempts (manager (fire env (Opened w) σ)) = 0) as H0
    by (by rewrite fire_reconnectAttempts).
  pose proof (attempts_without_close env es _ σ1 Hrun Hno H0) as Ha.
  destruct (close_schedules env w' σ1) as [Hlt _].
  rewrite Ha in Hlt. unfold maxReconnectAttempts, reconnectDelay in Hlt.
  destruct Hlt as (? & ? & ?); [lia|]. done.
Qed.

Lemma reset_on_success_witness :
  let σ := default (created here) (run quiet (outages 3) (created here)) in
  let σ1 := fire quiet (Timeout 0) (fire quiet (Elapse 30000) (fire quiet (Opened 3%nat) σ)) in
  reconnectAttempts (manager σ) = 3
  ∧ scheduled (since σ1 (fire quiet (Closed 3%nat) σ1)) = [(Reconnect, 1000)].
Proof.
  intros σ σ1. split; [vm_compute; reflexivity|].
  apply (reset_on_success quiet σ 3%nat [Elapse 30000; Timeout 0] σ1 3%nat);
    vm_compute; reflexivity.
Defined.

(** ** C5: the payload handed to listeners *)




(** ** C6: dispatch order *)




(** In that dispatch callback 1 registers callback 9 on the topic: it is in
    the array afterwards, and was not called. *)
Example registered_during_dispatch :
  let message := JObject [("type", JString "x"); ("data", JString "P")] in
  let σ := fire busy (CallOn "x" 2%nat) (fire busy (CallOn "x" 1%nat) (boot busy here)) in
  calls (since σ (handleMessage busy message σ).2) =
    [(1%nat, JString "P"); (2%nat, JString "P")]
  ∧ registered (handleMessage busy message σ).2 "x" = [1%nat; 2%nat; 9%nat].
Proof. vm_compute. split; reflexivity. Qed.

(** ** C7: listener isolation *)




(** The trace of the dispatch above: callback 3 disconnects the manager,
    which closes the socket and clears the registry, then throws; the
    exception is logged, and callback 5 is still called. *)
Example isolation_across_disconnect :
  let message := JObject [("type", JString "x"); ("data", JString "P")] in
  let σ := fire busy (CallOn "x" 5%nat) (fire busy (CallOn "x" 3%nat) (boot busy here)) in
  since σ (handleMessage busy message σ).2 =
  [(0, Console Log "Received WebSocket message:" (ArgValue message));
   (0, Call 3%nat (JString "P"));
   (0, WsClose 0%nat);
   (0, Console Error "Error in WebSocket listener:" (ArgError (Thrown 7)));
   (0, Call 5%nat (JString "P"))]
  ∧ registered (handleMessage busy message σ).2 "x" = [].
Proof. vm_compute. split; reflexivity. Qed.

(** The trace of that dispatch: the exception of callback 0 is logged
    between the two calls. *)
Example isolation_trace :
  let message := JObject [("type", JString "x"); ("data", JString "P")] in
  let σ := fire demo (CallOn "x" 5%nat) (fire demo (CallOn "x" 0%nat) (boot demo here)) in
  since σ (handleMessage demo message σ).2 =
  [(0, Console Log "Received WebSocket message:" (ArgValue message));
   (0, Call 0%nat (JString "P"));
   (0, Console Error "Error in WebSocket listener:" (ArgError (Thrown 7)));
   (0, Call 5%nat (JString "P"))].
Proof. vm_compute. reflexivity. Qed.

(** ** C8: decode resilience *)

(** C8: a text the parser rejects makes [onmessage] return normally after
    logging the failure; no listener is called, and the manager, the sockets
    and the pending timeouts are as before. *)
Theorem decode_failure_is_dropped env σ w raw :
  JSON_parse env raw = None →
  let σ' := fire env (Message w raw) σ in
  (onmessage env raw σ).1 = Ok tt
  ∧ since σ σ' =
      [(now σ, Console Error "Failed to parse WebSocket message:"
                 (ArgError (SyntaxError raw)))]
  ∧ calls (since σ σ') = []
  ∧ manager σ' = manager σ ∧ sockets σ' = sockets σ ∧ timers σ' = timers σ
  ∧ isConnected σ' = isConnected σ.
Proof.
  intros Hparse. cbn zeta. unfold fire, handler.
  rewrite onmessage_unfold, Hparse. unfold_M.
  rewrite since_set_trace. done.
Qed.

Lemma decode_failure_is_dropped_witness :
  let σ := fire demo (CallOn "x" 5%nat) (fire demo (Opened 0%nat) (boot demo here)) in
  calls (since σ (fire demo (Message 0%nat "{not json") σ)) = []
  ∧ isConnected (fire demo (Message 0%nat "{not json") σ) = true.
Proof.
  intros σ.
  destruct (decode_failure_is_dropped demo σ 0%nat "{not json")
    as (_ & _ & Hcalls & _ & _ & _ & Hconn); [vm_compute; reflexivity|].
  split; [exact Hcalls|]. rewrite Hconn. vm_compute. reflexivity.
Defined.

(** ** C9: heartbeat cadence *)

(** C9: when a transport opens, exactly one probe [ping_wire] is sent on it
    at once and the next heartbeat is set 30,000 ms ahead; a due heartbeat
    sends one probe and sets the next one 30,000 ms ahead when the transport
    is open, and does nothing otherwise; once the transport is closing or
    closed, no run sends anything on it; and over any run from start-up in
    which no collaborator calls [send], what was sent on a transport is a
    sequence of probes 30,000 ms apart. (Here the callbacks of the page keep
    away from the manager; [nothing_sent_when_shut] holds on every page, and
    [probes_on_time] on every page whose callbacks do not call [send].) *)
Theorem heartbeat_cadence (env : Host) :
  (∀ σ w, enabled σ (Opened w) = true →
     let σ' := fire env (Opened w) σ in
     sent_on w (since σ σ') = [(now σ, ping_wire)]
     ∧ timers σ' = timers σ ++ [(now σ + 30000, Heartbeat w)])
  ∧ (∀ σ i w, timers σ !! i = Some (now σ, Heartbeat w) →
     let σ' := fire env (Timeout i) σ in
     if bool_decide (sockets σ !! w = Some OPEN)
     then sent_on w (since σ σ') = [(now σ, ping_wire)]
          ∧ timers σ' = delete i (timers σ) ++ [(now σ + 30000, Heartbeat w)]
     else since σ σ' = [] ∧ timers σ' = delete i (timers σ))
  ∧ (∀ σ w es σ', shut σ w → run env es σ = Some σ' →
     sent_on w (since σ σ') = [])
  ∧ (∀ loc es σ w, run env es (created loc) = Some σ →
     forallb (λ e, negb (is_CallSend e)) es = true →
     ∃ t0 n, sent_on w (trace σ) = probes t0 n).
Proof.
  split_and!; [| | |intros loc es σ w; apply probes_on_time, passive_never_sends].
  - intros σ w He. cbn in He. apply bool_decide_eq_true in He. cbn zeta.
    rewrite fire_Opened by done. split; [|done].
    erewrite since_ext by (cbn [trace]; reflexivity).
    unfold sent_on. cbn. by rewrite bool_decide_eq_true_2.
  - intros σ i w Hi. cbn zeta. rewrite (fire_Heartbeat _ _ _ _ _ Hi).
    case_bool_decide.
    + split; [|done]. erewrite since_ext by (cbn [trace]; reflexivity).
      unfold sent_on. cbn. by rewrite bool_decide_eq_true_2.
    + split; [|done]. apply since_ext. cbn. by rewrite app_nil_r.
  - intros σ w es σ' Hshut Hrun. by eapply nothing_sent_when_shut.
Qed.

Lemma heartbeat_cadence_witness :
  let σ := boot quiet here in
  sent_on 0%nat (since σ (fire quiet (Opened 0%nat) σ)) = [(0, ping_wire)].
Proof.
  intros σ. destruct (heartbeat_cadence quiet) as (Hopen & _).
  apply Hopen. vm_compute. reflexivity.
Defined.

(** A connection that lives for two more heartbeats and then closes: three
    probes, 30,000 ms apart, and none after the close, although the heartbeat
    set at 60,000 ms still runs when it is due. *)
Example heartbeat_run :
  (λ σ, (sent_on 0%nat (trace σ), now σ)) <$>
    run quiet [Opened 0%nat; Elapse 30000; Timeout 0; Elapse 30000; Timeout 0;
               Closed 0%nat; Elapse 1000; Timeout 1%nat; Elapse 29000; Timeout 0]
      (boot quiet here)
  = Some ([(0, ping_wire); (30000, ping_wire); (60000, ping_wire)], 90000).
Proof. vm_compute. reflexivity. Qed.

(** ** C10: duplicate registration *)








(** * Further properties of the manager *)

(** ** send and isConnected *)

Lemma isConnected_readyState σ w :
  ws (manager σ) = Some w →
  isConnected σ = bool_decide (default CLOSED (sockets σ !! w) = OPEN).
Proof.
  intros Hw. unfold isConnected. rewrite Hw.
  destruct (sockets σ !! w) as [[]|]; reflexivity.
Qed.

(** X1: [send] writes on the transport exactly when [isConnected] holds: one
    frame, the JSON text of the message, on the stored transport; otherwise
    the message is dropped with a warning. Either way the manager, the
    sockets and the timeouts stay as they are. *)
Theorem send_writes_iff_connected pg σ m :
  let σ' := fire pg (CallSend m) σ in
  (isConnected σ = true →
     ∃ w, ws (manager σ) = Some w
          ∧ since σ σ' = [(now σ, WsSend w (JSON_stringify m))])
  ∧ (isConnected σ = false →
     since σ σ' = [(now σ, Console Warn "WebSocket is not connected" NoArg)])
  ∧ manager σ' = manager σ ∧ sockets σ' = sockets σ ∧ timers σ' = timers σ.
Proof.
  cbn zeta. unfold fire, handler, send. unfold_M.
  destruct (ws (manager σ)) as [w|] eqn:Hw.
  - rewrite (isConnected_readyState _ _ Hw). unfold_M.
    case_bool_decide; cbn; split_and!; try done.
    + intros _. exists w. split; [done|]. apply since_set_trace.
    + intros _. apply since_set_trace.
  - unfold isConnected. rewrite Hw. cbn. split_and!; try done.
    intros _. apply since_set_trace.
Qed.

Lemma send_writes_iff_connected_witness :
  let σ := fire quiet (Opened 0%nat) (boot quiet here) in
  ∃ w, ws (manager σ) = Some w
       ∧ since σ (fire quiet (CallSend ping) σ) = [(now σ, WsSend w (JSON_stringify ping))].
Proof.
  intros σ. destruct (send_writes_iff_connected quiet σ ping) as (Hsend & _).
  apply Hsend. vm_compute. reflexivity.
Defined.

(** With no topic in the registry a dispatch calls nobody. *)
Lemma handleMessage_unregistered pg message σ :
  listeners (manager σ) = ∅ →
  calls (since σ (handleMessage pg message σ).2) = [].
Proof.
  intros Hnone. unfold handleMessage, bind at 1, console_log, emit, modify.
  destruct (get_prop message "type") as [e|ty]; cbn [lift].
  - unfold bind at 1, throw at 1. cbn [snd]. by rewrite since_set_trace.
  - unfold bind at 1, ret at 1, bind at 1, gets at 1. cbv beta iota.
    cbn [manager set_trace]. rewrite Hnone.
    assert (match ty with
            | Some (JString t) => (∅ : gmap string nat) !! t
            | _ => None
            end = None) as -> by (by destruct ty as [[]|]).
    unfold ret. cbn [snd]. by rewrite since_set_trace.
Qed.

(** X2: after [disconnect()], whatever the state before, the manager is not
    connected, no topic has a listener, a [send] is dropped, and an envelope
    that still arrives reaches nobody. *)
Theorem disconnect_leaves_nothing_usable pg σ :
  let σ' := fire pg CallDisconnect σ in
  isConnected σ' = false
  ∧ (∀ t, registered σ' t = [])
  ∧ (∀ m, since σ' (fire pg (CallSend m) σ')
          = [(now σ, Console Warn "WebSocket is not connected" NoArg)])
  ∧ (∀ message, calls (since σ' (handleMessage pg message σ').2) = []).
Proof.
  cbn zeta.
  assert (isConnected (fire pg CallDisconnect σ) = false) as Hoff.
  { rewrite fire_CallDisconnect. unfold isConnected.
    destruct (ws (manager σ)) as [w|] eqn:Hw; cbn; rewrite Hw; [|done].
    apply bool_decide_eq_false_2.
    destruct (sockets σ !! w) as [st|] eqn:Hst; [|by rewrite Hst].
    assert (w < length (sockets σ))%nat by (by eapply lookup_lt_Some).
    destruct st; rewrite ?list_lookup_insert_eq by done; rewrite ?Hst; done. }
  assert (listeners (manager (fire pg CallDisconnect σ)) = ∅) as Hnone.
  { rewrite fire_CallDisconnect. by destruct (ws (manager σ)). }
  assert (now (fire pg CallDisconnect σ) = now σ) as Hnow.
  { rewrite fire_CallDisconnect. by destruct (ws (manager σ)). }
  split_and!; try done.
  - intros t. unfold registered. by rewrite Hnone, lookup_empty.
  - intros m.
    destruct (send_writes_iff_connected pg (fire pg CallDisconnect σ) m)
      as (_ & Hdrop & _).
    rewrite <- Hnow. by apply Hdrop.
  - intros message. by apply handleMessage_unregistered.
Qed.

(** ** The registry *)

(** X3: [off] with a callback that is not registered on the topic (or with a
    topic nobody registered on) changes nothing at all. *)
Theorem off_absent_changes_nothing pg σ t cb :
  cb ∉ registered σ t → fire pg (CallOff t cb) σ = σ.
Proof. intros Hnot. by rewrite fire_CallOff, off_absent. Qed.

Lemma off_absent_changes_nothing_witness :
  let σ := fire quiet (CallOn "x" 1%nat) (boot quiet here) in
  fire quiet (CallOff "x" 2%nat) σ = σ ∧ fire quiet (CallOff "y" 1%nat) σ = σ.
Proof.
  intros σ. split; apply off_absent_changes_nothing.
  - assert (registered σ "x" = [1%nat]) as -> by (vm_compute; reflexivity).
    apply not_elem_of_cons. split; [done|apply not_elem_of_nil].
  - assert (registered σ "y" = []) as -> by (vm_compute; reflexivity).
    apply not_elem_of_nil.
Defined.

(** X4: [on] and [off] on one topic leave the listeners of every other topic
    as they are, and touch neither the sockets, the timeouts, the attempt
    counter, the stored transport nor the trace. *)
Theorem registry_calls_are_local pg σ t cb e :
  registry_ok σ →
  e = CallOn t cb ∨ e = CallOff t cb →
  let σ' := fire pg e σ in
  (∀ t', t ≠ t' → registered σ' t' = registered σ t')
  ∧ sockets σ' = sockets σ ∧ timers σ' = timers σ ∧ trace σ' = trace σ
  ∧ reconnectAttempts (manager σ') = reconnectAttempts (manager σ)
  ∧ ws (manager σ') = ws (manager σ).
Proof.
  intros Hok [-> | ->]; cbn zeta.
  - split; [intros t' Hne; by rewrite fire_CallOn, registered_on, decide_False by done|].
    rewrite fire_CallOn, on_unfold. cbn [snd].
    by destruct (listeners (manager σ) !! t).
  - split; [intros t' Hne; rewrite fire_CallOff; by apply registered_off_other|].
    rewrite fire_CallOff, off_unfold. cbn [snd].
    destruct (listeners (manager σ) !! t); [|done]. by case_bool_decide.
Qed.

Lemma registry_calls_are_local_witness :
  let σ := fire quiet (CallOn "x" 1%nat) (boot quiet here) in
  registered (fire quiet (CallOn "y" 2%nat) σ) "x" = [1%nat].
Proof.
  intros σ.
  destruct (registry_calls_are_local quiet σ "y" 2%nat (CallOn "y" 2%nat))
    as (Hother & _).
  - apply (reachable_registry_ok quiet here [CallConnect; CallOn "x" 1%nat]).
    vm_compute. reflexivity.
  - by left.
  - rewrite Hother by done. vm_compute. reflexivity.
Defined.

(** X5: registering a callback that is not yet on the topic and then
    unregistering it (what pages/Tasks.tsx does when it mounts and
    unmounts) gives back the listeners of every topic. *)
Theorem on_then_off_restores pg σ t cb :
  registry_ok σ →
  cb ∉ registered σ t →
  ∀ t', registered (fire pg (CallOff t cb) (fire pg (CallOn t cb) σ)) t'
        = registered σ t'.
Proof.
  intros Hok Hnot t'. rewrite fire_CallOff, fire_CallOn.
  destruct (decide (t = t')) as [<-|Hne].
  - rewrite (registered_off_first t cb (registered σ t) []).
    + apply app_nil_r.
    + by rewrite registered_on, decide_True.
    + done.
  - rewrite registered_off_other by (done || by apply registry_ok_on).
    by rewrite registered_on, decide_False.
Qed.

Lemma on_then_off_restores_witness :
  let σ := fire quiet (CallOn "x" 1%nat) (boot quiet here) in
  registered (fire quiet (CallOff "x" 2%nat) (fire quiet (CallOn "x" 2%nat) σ)) "x"
  = [1%nat].
Proof.
  intros σ. rewrite on_then_off_restores.
  - vm_compute. reflexivity.
  - apply (reachable_registry_ok quiet here [CallConnect; CallOn "x" 1%nat]).
    vm_compute. reflexivity.
  - assert (registered σ "x" = [1%nat]) as -> by (vm_compute; reflexivity).
    apply not_elem_of_cons. split; [done|apply not_elem_of_nil].
Defined.

(** X6: for a callback that is already on the topic the same two calls are
    not neutral: [off] removes its first occurrence, so the callback ends up
    last in the dispatch order. *)
Theorem on_then_off_moves_last pg σ t cb l1 l2 :
  registry_ok σ →
  registered σ t = l1 ++ cb :: l2 → cb ∉ l1 →
  registered (fire pg (CallOff t cb) (fire pg (CallOn t cb) σ)) t
  = l1 ++ l2 ++ [cb].
Proof.
  intros Hok Hreg Hnot. rewrite fire_CallOff, fire_CallOn.
  apply (registered_off_first t cb l1 (l2 ++ [cb])); [|done].
  rewrite registered_on, decide_True, Hreg by done.
  by rewrite <- app_assoc.
Qed.

Lemma on_then_off_moves_last_witness :
  let σ := fire quiet (CallOn "x" 2%nat) (fire quiet (CallOn "x" 1%nat) (boot quiet here)) in
  registered σ "x" = [1%nat; 2%nat]
  ∧ registered (fire quiet (CallOff "x" 1%nat) (fire quiet (CallOn "x" 1%nat) σ)) "x"
    = [2%nat; 1%nat].
Proof.
  intros σ. split; [vm_compute; reflexivity|].
  apply (on_then_off_moves_last quiet σ "x" 1%nat [] [2%nat]).
  - apply (reachable_registry_ok quiet here
             [CallConnect; CallOn "x" 1%nat; CallOn "x" 2%nat]).
    vm_compute. reflexivity.
  - vm_compute. reflexivity.
  - apply not_elem_of_nil.
Defined.

(** ** Dispatch, whatever the callbacks do *)



(** Callback 1, registered twice before callback 2, unregisters itself
    when called: the dispatch makes two calls for three listeners. *)
Example fewer_calls_than_listeners :
  let message := JObject [("type", JString "x"); ("data", JString "P")] in
  let σ := fire once (CallOn "x" 2%nat) (fire once (CallOn "x" 1%nat)
             (fire once (CallOn "x" 1%nat) (boot once here))) in
  registered σ "x" = [1%nat; 1%nat; 2%nat]
  ∧ calls (since σ (handleMessage once message σ).2)
    = [(1%nat, JString "P"); (2%nat, JString "P")].
Proof. vm_compute. split; reflexivity. Qed.

(** ** Invariants of every run, whatever the callbacks do *)

Lemma local_quiet ext :
  Forall (λ p, local p.2) ext → urls ext = [] ∧ scheduled ext = [].
Proof.
  unfold urls.
  induction 1 as [|[t e] ext He _ (IHu & IHs)]; [done|].
  destruct e; done.
Qed.

Lemma urls_app tr1 tr2 : urls (tr1 ++ tr2) = urls tr1 ++ urls tr2.
Proof. apply omap_app. Qed.

(** What a public method adds to the trace: no timeout, and URLs built
    from the page's location only. *)
Lemma perform_effects act σ :
  location (perform act σ).2 = location σ
  ∧ scheduled (since σ (perform act σ).2) = []
  ∧ Forall (λ u, u = ws_url (location σ)) (urls (since σ (perform act σ).2)).
Proof.
  destruct act as [t cb|t cb|m| |]; unfold perform.
  all: unfold_handlers; unfold_M; repeat case_match; simplify_eq/=;
    try case_bool_decide; simplify_eq/=; since_eval; unfold urls, ws_url; cbn;
    split_and!; repeat constructor;
    repeat match goal with H : String.eqb _ _ = _ |- _ => rewrite H end; done.
Qed.

Lemma latest_snoc (ss : list readyState) x : latest (ss ++ [x]) = Some (length ss).
Proof.
  unfold latest. destruct ss as [|y ss]; [done|].
  cbn. rewrite length_app. cbn. f_equal. lia.
Qed.

Lemma latest_insert (ss : list readyState) (w : wsref) st :
  latest (<[w := st]> ss) = latest ss.
Proof.
  unfold latest. destruct ss as [|y ss]; [done|].
  destruct w as [|w]; [done|].
  change (<[S w := st]> (y :: ss)) with (y :: <[w := st]> ss).
  cbn [length]. by rewrite length_insert.
Qed.

(** A public method changes the state of one socket, or adds a socket and
    stores it, or leaves the sockets alone; it never removes one. *)
Lemma perform_sockets_shape act σ :
  (ws (manager (perform act σ).2) = ws (manager σ)
   ∧ (sockets (perform act σ).2 = sockets σ
      ∨ ∃ w st, sockets (perform act σ).2 = <[w := st]> (sockets σ)))
  ∨ (ws (manager (perform act σ).2) = Some (length (sockets σ))
     ∧ sockets (perform act σ).2 = sockets σ ++ [CONNECTING]).
Proof.
  destruct act as [t cb|t cb|m| |]; unfold perform.
  all: unfold_handlers; unfold_M; repeat case_match; simplify_eq/=;
    try case_bool_decide; simplify_eq/=; eauto 8.
Qed.

Lemma perform_holds_latest act σ : holds_latest σ → holds_latest (perform act σ).2.
Proof.
  unfold holds_latest. intros Hl.
  destruct (perform_sockets_shape act σ) as [[-> [-> | (w & st & ->)]] | [-> ->]].
  - done.
  - by rewrite latest_insert.
  - by rewrite latest_snoc.
Qed.

Section Everywhere.
Context (pg : Page).

(** What one event requests in the way of timeouts. *)
Lemma fire_scheduled e σ :
  0 ≤ reconnectAttempts (manager σ) ≤ maxReconnectAttempts →
  Forall known_timeout (scheduled (trace σ)) →
  Forall known_timeout (scheduled (trace (fire pg e σ))).
Proof.
  intros Ha Hs. unfold maxReconnectAttempts in Ha.
  assert (∀ act σ0, Forall known_timeout (scheduled (trace σ0)) →
            Forall known_timeout (scheduled (trace (perform act σ0).2))) as Hperform.
  { intros act σ0 Hs0. destruct (perform_extends act σ0) as [ext Hext].
    destruct (perform_effects act σ0) as (_ & Hnone & _).
    rewrite (since_ext _ _ _ Hext) in Hnone.
    by rewrite Hext, scheduled_app, Hnone, app_nil_r. }
  destruct e as [| |t cb|t cb|m|w|w data|w|w|i|d].
  1: by apply (Hperform DoConnect).
  1: by apply (Hperform DoDisconnect).
  1: by apply (Hperform (DoOn t cb)).
  1: by apply (Hperform (DoOff t cb)).
  1: by apply (Hperform (DoSend m)).
  2: { apply (fire_Message_preserved pg
                (λ σ', Forall known_timeout (scheduled (trace σ')))); [|done..].
       intros e σ0 Hloc Hs0. cbn. rewrite scheduled_app.
       apply Forall_app. split; [done|]. by destruct e. }
  all: match goal with |- context [fire pg ?e ?s] =>
         destruct (fire_extends pg e s) as [ext Hext] end;
    rewrite Hext, scheduled_app;
    apply Forall_app; split; [done|];
    rewrite <- (since_ext _ _ _ Hext); clear Hext ext.
  all: unfold_handlers; unfold_M; repeat case_match; simplify_eq/=;
    try case_bool_decide; simplify_eq/=; since_eval; cbn;
    repeat constructor; cbn; try done.
  exists (reconnectAttempts (manager σ) + 1).
  unfold maxReconnectAttempts, reconnectDelay in *. lia.
Qed.

Lemma fire_location e σ : location (fire pg e σ) = location σ.
Proof.
  destruct e as [| |t cb|t cb|m|w|w data|w|w|i|d].
  1: by destruct (perform_effects DoConnect σ).
  1: by destruct (perform_effects DoDisconnect σ).
  1: by destruct (perform_effects (DoOn t cb) σ).
  1: by destruct (perform_effects (DoOff t cb) σ).
  1: by destruct (perform_effects (DoSend m) σ).
  2: { apply (fire_Message_preserved pg (λ σ', location σ' = location σ));
         [done| |done].
       intros act σ0 <-. by destruct (perform_effects act σ0). }
  all: unfold_handlers; unfold_M; repeat case_match; by simplify_eq/=.
Qed.

Lemma fire_urls e σ :
  Forall (λ u, u = ws_url (location σ)) (urls (trace σ)) →
  Forall (λ u, u = ws_url (location σ)) (urls (trace (fire pg e σ))).
Proof.
  intros Hs.
  assert (∀ act σ0, location σ0 = location σ
                    ∧ Forall (λ u, u = ws_url (location σ)) (urls (trace σ0)) →
            location (perform act σ0).2 = location σ
            ∧ Forall (λ u, u = ws_url (location σ)) (urls (trace (perform act σ0).2)))
    as Hperform.
  { intros act σ0 [Hloc Hs0]. destruct (perform_extends act σ0) as [ext Hext].
    destruct (perform_effects act σ0) as (Hl & _ & Hu).
    rewrite (since_ext _ _ _ Hext), Hloc in Hu.
    split; [congruence|]. rewrite Hext, urls_app. by apply Forall_app. }
  destruct e as [| |t cb|t cb|m|w|w data|w|w|i|d].
  1: by apply (Hperform DoConnect).
  1: by apply (Hperform DoDisconnect).
  1: by apply (Hperform (DoOn t cb)).
  1: by apply (Hperform (DoOff t cb)).
  1: by apply (Hperform (DoSend m)).
  2: { assert (location (fire pg (Message w data) σ) = location σ
               ∧ Forall (λ u, u = ws_url (location σ))
                   (urls (trace (fire pg (Message w data) σ)))) as [_ H]; [|done].
       apply (fire_Message_preserved pg
                (λ σ', location σ' = location σ
                       ∧ Forall (λ u, u = ws_url (location σ)) (urls (trace σ'))));
         [|done|done].
       intros e σ0 Hloc [Hl Hs0]. split; [done|]. cbn. rewrite urls_app.
       apply Forall_app. split; [done|]. by destruct e. }
  all: match goal with |- context [fire pg ?e ?s] =>
         destruct (fire_extends pg e s) as [ext Hext] end;
    rewrite Hext, urls_app;
    apply Forall_app; split; [done|];
    rewrite <- (since_ext _ _ _ Hext); clear Hext ext.
  all: unfold_handlers; unfold_M; repeat case_match; simplify_eq/=;
    try case_bool_decide; simplify_eq/=; since_eval; unfold urls, ws_url; cbn;
    repeat constructor;
    repeat match goal with H : String.eqb _ _ = _ |- _ => rewrite H end; done.
Qed.

Lemma fire_holds_latest e σ : holds_latest σ → holds_latest (fire pg e σ).
Proof.
  intros Hl. destruct e as [| |t cb|t cb|m|w|w data|w|w|i|d].
  1: by apply (perform_holds_latest DoConnect).
  1: by apply (perform_holds_latest DoDisconnect).
  1: by apply (perform_holds_latest (DoOn t cb)).
  1: by apply (perform_holds_latest (DoOff t cb)).
  1: by apply (perform_holds_latest (DoSend m)).
  2: { apply fire_Message_preserved; [done| |done].
       intros act σ0. apply perform_holds_latest. }
  all: unfold holds_latest in *.
  all: unfold_handlers; unfold_M; repeat case_match; simplify_eq/=;
    try case_bool_decide; simplify_eq/=;
    rewrite ?latest_insert, ?latest_snoc; done.
Qed.

End Everywhere.

Section Invariants.
Context (pg : Page).

(** A run on a page whose callbacks do not write the registry, without a
    call of [on], [off] or [disconnect]: the registry stays as it is. *)
Lemma fire_registry_frame e σ :
  keeps_registry pg → writes_registry e = false →
  arrays (fire pg e σ) = arrays σ
  ∧ listeners (manager (fire pg e σ)) = listeners (manager σ).
Proof.
  intros Hpg Hw.
  destruct e as [| |t cb|t cb|m|w|w data|w|w|i|d]; try done.
  4: { apply (fire_Message_preserved_among pg _
                (λ σ', arrays σ' = arrays σ
                       ∧ listeners (manager σ') = listeners (manager σ)) w data σ Hpg);
         [done| |done].
       intros act σ0 Hact [<- <-].
       destruct act as [| |m0| |]; try done; unfold perform;
         unfold_handlers; unfold_M; repeat case_match; by simplify_eq/=. }
  all: unfold_handlers; unfold_M; repeat case_match; by simplify_eq/=.
Qed.

End Invariants.

(** X8: the attempt counter stays between 0 and 5 in every run from
    start-up, on every page, whatever its callbacks do. *)
Theorem attempts_bounded pg loc es σ :
  run pg es (created loc) = Some σ →
  0 ≤ reconnectAttempts (manager σ) ≤ 5.
Proof.
  intros Hrun.
  eapply (run_invariant pg (λ σ, 0 ≤ reconnectAttempts (manager σ) ≤ 5));
    [|exact Hrun|done].
  intros e σ0 _ Ha. rewrite fire_reconnectAttempts.
  unfold maxReconnectAttempts in *.
  destruct e; try done; try case_bool_decide; lia.
Qed.

Lemma attempts_bounded_witness :
  reconnectAttempts (manager
    (default (created here)
       (run busy (outages 5 ++ [Closed 5%nat; CallConnect; Closed 6%nat]) (created here))))
  ≤ 5.
Proof.
  apply (attempts_bounded busy here
           (outages 5 ++ [Closed 5%nat; CallConnect; Closed 6%nat])).
  vm_compute. reflexivity.
Defined.

(** X9: every timeout the manager requests in a run from start-up is a
    heartbeat 30,000 ms ahead or a reconnection 1000*k ms ahead with k from
    1 to 5: no retry waits longer than 5 seconds, none is immediate. *)
Theorem timeouts_are_known pg loc es σ :
  run pg es (created loc) = Some σ →
  Forall known_timeout (scheduled (trace σ)).
Proof.
  intros Hrun.
  assert (0 ≤ reconnectAttempts (manager σ) ≤ maxReconnectAttempts
          ∧ Forall known_timeout (scheduled (trace σ))) as [_ H]; [|done].
  eapply (run_invariant pg
            (λ σ, 0 ≤ reconnectAttempts (manager σ) ≤ maxReconnectAttempts
                  ∧ Forall known_timeout (scheduled (trace σ))));
    [|exact Hrun|by split].
  intros e σ0 _ [Ha Hs]. split.
  - rewrite fire_reconnectAttempts. unfold maxReconnectAttempts in *.
    destruct e; try done; try case_bool_decide; lia.
  - by apply fire_scheduled.
Qed.

Lemma timeouts_are_known_witness :
  Forall known_timeout
    (scheduled (trace (default (created here)
                         (run busy (outages 2 ++ [Opened 2%nat]) (created here))))).
Proof.
  apply (timeouts_are_known busy here (outages 2 ++ [Opened 2%nat])).
  vm_compute. reflexivity.
Defined.

(** X10: in every run from start-up the transport the manager holds is the
    one created last; so [disconnect] leaves every earlier transport in the
    state it is in, open or not. *)
Theorem manager_holds_latest pg loc es σ :
  run pg es (created loc) = Some σ →
  holds_latest σ
  ∧ ∀ w, (S w < length (sockets σ))%nat →
         sockets (fire pg CallDisconnect σ) !! w = sockets σ !! w.
Proof.
  intros Hrun.
  assert (holds_latest σ) as Hl.
  { eapply (run_invariant pg holds_latest); [|exact Hrun|done].
    intros e σ0 _. apply fire_holds_latest. }
  split; [done|]. intros w Hw. rewrite fire_CallDisconnect.
  assert (ws (manager σ) = Some (length (sockets σ) - 1)%nat) as ->.
  { unfold holds_latest, latest in Hl. rewrite Hl.
    destruct (sockets σ); [cbn in Hw; lia|done]. }
  cbn [sockets].
  repeat case_match; try done; apply list_lookup_insert_ne; lia.
Qed.

Lemma manager_holds_latest_witness :
  let σ := default (created here)
             (run quiet [CallConnect; Opened 0%nat; CallConnect; Opened 1%nat]
                (created here)) in
  sockets (fire quiet CallDisconnect σ) !! 0%nat = Some OPEN
  ∧ sockets (fire quiet CallDisconnect σ) !! 1%nat = Some CLOSING.
Proof.
  intros σ.
  destruct (manager_holds_latest quiet here
              [CallConnect; Opened 0%nat; CallConnect; Opened 1%nat] σ)
    as [_ Hkeep]; [vm_compute; reflexivity|].
  split; [|vm_compute; reflexivity].
  rewrite Hkeep by (vm_compute; lia). vm_compute. reflexivity.
Defined.

(** X11: every transport of a run from start-up is created with the URL
    built from the page's location: scheme wss exactly when the page's
    protocol is [https:], then the page's host, then [/ws]. *)
Theorem transports_use_page_location pg loc es σ :
  run pg es (created loc) = Some σ →
  Forall (λ u, u = ws_url loc) (urls (trace σ)).
Proof.
  intros Hrun.
  assert (location σ = loc ∧ Forall (λ u, u = ws_url loc) (urls (trace σ)))
    as [_ H]; [|done].
  eapply (run_invariant pg
            (λ σ, location σ = loc ∧ Forall (λ u, u = ws_url loc) (urls (trace σ))));
    [|exact Hrun|by split].
  intros e σ0 _ [Hloc Hs]. split; [by rewrite fire_location|].
  rewrite <- Hloc in *. by apply fire_urls.
Qed.

Lemma transports_use_page_location_witness :
  Forall (λ u, u = ws_url here)
    (urls (trace (default (created here) (run quiet (outages 2) (created here))))).
Proof.
  apply (transports_use_page_location quiet here (outages 2)).
  vm_compute. reflexivity.
Defined.

(** X12: the registry is written by [on], [off] and [disconnect] only: on a
    page whose callbacks call none of them, over any run without these calls
    (opens, closes, reconnections, heartbeats, messages, sends), every
    subscription stays in place. *)
Theorem subscriptions_survive pg es σ σ' :
  keeps_registry pg →
  run pg es σ = Some σ' →
  forallb (λ e, negb (writes_registry e)) es = true →
  ∀ t, registered σ' t = registered σ t.
Proof.
  intros Hpg Hrun Hno t. unfold registered.
  assert (arrays σ' = arrays σ ∧ listeners (manager σ') = listeners (manager σ))
    as [-> ->]; [|done].
  revert σ Hrun. induction es as [|e es IH]; intros σ Hrun.
  - cbn in Hrun. by simplify_eq.
  - apply run_cons in Hrun as [_ Hrun]. cbn in Hno.
    apply andb_true_iff in Hno as [He Hno].
    destruct (IH Hno _ Hrun) as [-> ->].
    apply fire_registry_frame; [done|]. by destruct (writes_registry e).
Qed.

Lemma subscriptions_survive_witness :
  let σ := fire quiet (CallOn "x" 1%nat) (boot quiet here) in
  registered
    (default σ (run quiet [Closed 0%nat; Elapse 1000; Timeout 0; Opened 1%nat] σ)) "x"
  = [1%nat].
Proof.
  intros σ.
  rewrite (subscriptions_survive quiet
             [Closed 0%nat; Elapse 1000; Timeout 0; Opened 1%nat] σ).
  - vm_compute. reflexivity.
  - intros cb v σ0. constructor.
  - vm_compute. reflexivity.
  - vm_compute. reflexivity.
Defined.




(** X14: once a socket is closing or closed it stays so, and nothing more
    is sent on it in any run on any page, whoever calls [send]. *)
Theorem closed_socket_stays_silent pg es σ σ' w :
  shut σ w →
  run pg es σ = Some σ' →
  shut σ' w ∧ sent_on w (since σ σ') = [].
Proof.
  intros Hshut Hrun. split.
  - by destruct (run_shut pg es σ σ' w Hrun Hshut).
  - by eapply nothing_sent_when_shut.
Qed.

Lemma closed_socket_stays_silent_witness :
  let σ := fire busy (Closed 0%nat) (fire busy (Opened 0%nat) (boot busy here)) in
  sent_on 0%nat
    (since σ (default σ (run busy [CallSend ping; Elapse 1000; Timeout 1%nat;
                                   Opened 1%nat; CallSend ping] σ)))
  = [].
Proof.
  intros σ.
  apply (closed_socket_stays_silent busy
           [CallSend ping; Elapse 1000; Timeout 1%nat; Opened 1%nat; CallSend ping]
           σ _ 0%nat).
  - right. vm_compute. reflexivity.
  - vm_compute. reflexivity.
Defined.

(** * The pages that show what arrives *)

Lemma length_slice_last {A} n (l : list A) :
  length (slice_last n l) = (length l `min` n)%nat.
Proof. unfold slice_last. rewrite length_drop. lia. Qed.

Lemma slice_last_snoc {A} n (l : list A) x :
  slice_last (S n) (l ++ [x]) = slice_last n l ++ [x].
Proof.
  unfold slice_last. rewrite length_app. cbn [length].
  replace (length l + 1 - S n)%nat with (length l - n)%nat by lia.
  apply drop_app_le. lia.
Qed.

(** Cutting down to the last [n] before more arrives changes nothing for
    the last [n] afterwards. *)
Lemma slice_last_app {A} n (l more : list A) :
  slice_last n (slice_last n l ++ more) = slice_last n (l ++ more).
Proof.
  unfold slice_last. rewrite !length_app, length_drop.
  replace (length l + length more - n)%nat
    with ((length l - n) + (length l - (length l - n) + length more - n))%nat by lia.
  rewrite <- drop_drop. f_equal. symmetry. apply drop_app_le. lia.
Qed.

Lemma slice_last_all {A} n (l : list A) : (length l ≤ n)%nat → slice_last n l = l.
Proof. intros Hn. unfold slice_last. by replace (length l - n)%nat with 0%nat by lia. Qed.

(** ** pages/Logs.tsx *)

Lemma logs_after_entries parse stream logs :
  Logs.after parse stream logs =
  match Logs.entries parse stream with
  | [] => logs
  | _ :: _ => slice_last 100 (logs ++ Logs.entries parse stream)
  end.
Proof.
  unfold Logs.after, Logs.entries.
  revert logs. induction stream as [|data stream IH]; intros logs; [done|].
  cbn [foldl omap list_omap]. rewrite IH. unfold Logs.onmessage.
  destruct (parse data) as [message|]; [|done].
  destruct (get_prop message "type") as [|type]; [done|].
  destruct (Logs.is_log_entry type); [|by destruct (get_prop message "data")].
  destruct (get_prop message "data") as [|entry]; [done|].
  cbn [mbind option_bind]. rewrite <- (slice_last_snoc 99 logs entry).
  destruct (omap _ stream) as [|e es] eqn:Hes.
  - done.
  - rewrite slice_last_app. by rewrite <- app_assoc.
Qed.

(** X15: the live log view shows the last 100 entries of the stream, oldest
    first: frames that do not parse, that are [null] or that are not of type
    [log_entry] leave it as it is, and every entry that arrives goes last,
    pushing out the oldest one once there are 100. *)
Theorem log_view_keeps_last_100 parse stream :
  Logs.after parse stream [] = slice_last 100 (Logs.entries parse stream)
  ∧ (length (Logs.after parse stream []) ≤ 100)%nat
  ∧ ∀ data logs,
      Logs.onmessage parse data logs =
      match Logs.entries parse [data] with
      | [] => logs
      | entry :: _ => slice_last 99 logs ++ [entry]
      end.
Proof.
  assert (Logs.after parse stream [] = slice_last 100 (Logs.entries parse stream)) as Heq.
  { rewrite logs_after_entries. by destruct (Logs.entries parse stream). }
  split_and!; [done| |].
  - rewrite Heq, length_slice_last. lia.
  - intros data logs. unfold Logs.onmessage, Logs.entries. cbn [omap list_omap].
    destruct (parse data) as [message|]; [|done].
    destruct (get_prop message "type") as [|type]; [done|].
    destruct (Logs.is_log_entry type); [|by destruct (get_prop message "data")].
    by destruct (get_prop message "data").
Qed.

(** 150 entries arrive, with a frame of another type in between: the view
    holds the last 100. *)
Example log_view_after_150 :
  let parse := λ s : string,
    if String.eqb s "tick" then Some (JObject [("type", JString "tick")])
    else Some (JObject [("type", JString "log_entry"); ("data", JString s)]) in
  let stream := replicate 50 "old" ++ ["tick"] ++ replicate 100 "new" in
  Logs.after parse stream [] = replicate 100 (Some (JString "new")).
Proof. vm_compute. reflexivity. Qed.

(** ** pages/System.tsx *)

Lemma samples_after {A} (samples prev : list A) :
  System.after samples prev =
  match samples with
  | [] => prev
  | _ :: _ => slice_last 20 (prev ++ samples)
  end.
Proof.
  unfold System.after.
  revert prev. induction samples as [|x samples IH]; intros prev; [done|].
  cbn [foldl]. rewrite IH. unfold System.onSuccess.
  destruct samples as [|y samples]; [done|].
  rewrite slice_last_app. by rewrite <- app_assoc.
Qed.

(** X16: the charts of the system page are drawn from the last 20 samples,
    oldest first. *)
Theorem charts_keep_last_20 {A} (samples : list A) :
  System.after samples [] = slice_last 20 samples
  ∧ (length (System.after samples []) ≤ 20)%nat.
Proof.
  assert (System.after samples [] = slice_last 20 samples) as Heq.
  { rewrite samples_after. by destruct samples. }
  split; [done|]. rewrite Heq, length_slice_last. lia.
Qed.

(** ** pages/Tasks.tsx *)

Lemma assoc_app k (l1 l2 : list (string * json)) :
  assoc k (l1 ++ l2) = match assoc k l1 with Some v => Some v | None => assoc k l2 end.
Proof.
  induction l1 as [|[k' v] l1 IH]; [done|]. cbn.
  by destruct (String.eqb k k').
Qed.

Lemma assoc_spread k task data :
  assoc k (Tasks.spread task data) =
  match assoc k data with
  | Some v => Some v
  | None => assoc k task
  end.
Proof.
  unfold Tasks.spread. rewrite assoc_app.
  assert (assoc k (map (λ p, (p.1, default p.2 (assoc p.1 data))) task)
          = match assoc k task with
            | Some v => Some (default v (assoc k data))
            | None => None
            end) as ->.
  { induction task as [|[k' v] task IH]; [done|]. cbn.
    destruct (String.eqb k k') eqn:E; [|done].
    apply String.eqb_eq in E. by subst. }
  destruct (assoc k task) as [v|] eqn:Hk; [by destruct (assoc k data)|].
  induction data as [|[k' v'] data IH]; [done|]. cbn.
  destruct (String.eqb k k') eqn:E.
  - apply String.eqb_eq in E. subst k'. rewrite Hk. cbn. by rewrite String.eqb_refl.
  - destruct (assoc k' task); cbn; [done|]. by rewrite E.
Qed.

(** X17: an update for a task leaves the list of tasks as long as it was
    and every task with another id as it was; in a task with the id of the
    update, every property the update carries takes its value and every
    other property keeps its own; a cache that holds no list yet stays
    empty. *)
Theorem task_update_merges data :
  Tasks.handleTaskUpdate data None = None
  ∧ ∀ tasks, ∃ tasks',
      Tasks.handleTaskUpdate data (Some tasks) = Some tasks'
      ∧ length tasks' = length tasks
      ∧ ∀ i task, tasks !! i = Some task →
          ∃ task', tasks' !! i = Some task'
            ∧ if Tasks.strict_eq (assoc "id" task) (assoc "id" data)
              then ∀ k, assoc k task' = match assoc k data with
                                        | Some v => Some v
                                        | None => assoc k task
                                        end
              else task' = task.
Proof.
  unfold Tasks.object in *.
  split; [done|]. intros tasks. eexists. split; [reflexivity|].
  split; [by rewrite length_map|].
  intros i task Hi.
  match goal with |- context [map ?f tasks] => change (map f tasks) with (f <$> tasks) end.
  eexists. split; [rewrite list_lookup_fmap, Hi; reflexivity|]. cbv beta.
  destruct (Tasks.strict_eq _ _); [|done].
  intros k. apply assoc_spread.
Qed.

Lemma task_update_merges_witness :
  let running := [("id", JString "t1"); ("status", JString "running"); ("progress", JNumber 10)] in
  let other := [("id", JString "t2"); ("status", JString "stopped")] in
  let data := [("id", JString "t1"); ("progress", JNumber 40)] in
  ∃ tasks', Tasks.handleTaskUpdate data (Some [running; other]) = Some tasks'
    ∧ tasks' !! 1%nat = Some other
    ∧ ∃ task', tasks' !! 0%nat = Some task'
        ∧ assoc "progress" task' = Some (JNumber 40)
        ∧ assoc "status" task' = Some (JString "running").
Proof.
  intros running other data.
  destruct (task_update_merges data) as [_ Hsome].
  destruct (Hsome [running; other]) as (tasks' & Heq & _ & Heach).
  exists tasks'. split; [exact Heq|]. split.
  - destruct (Heach 1%nat other) as (task' & H1 & Hsame); [reflexivity|].
    rewrite H1. f_equal. exact Hsame.
  - destruct (Heach 0%nat running) as (task' & H0 & Hmerge); [reflexivity|].
    exists task'. split; [exact H0|]. cbn in Hmerge.
    split; rewrite Hmerge; reflexivity.
Defined.

